(** * CookMate backend: role-gated profile and listing workflow, translation proxy

    A shallow embedding of [src/app.ts], [src/translation.ts] and of the
    relational schema of [supabase/schema.sql].

    - Tables are finite maps from the primary key ([id uuid primary key]) to
      the remaining columns, so that primary keys are unique by construction.
      The other constraints of the schema (unique columns, foreign keys,
      check constraints) are enforced by the write operations, which answer
      with the PostgreSQL error code of the violated constraint.
    - [gen_random_uuid()] is modelled by a key that is fresh for the table.
    - Handlers are functions from the store (and the request) to the new
      store and the HTTP response.
    - Strings hold the UTF-8 encoding of the text; [js_length] counts the
      UTF-16 code units that JavaScript counts.
    - The numbers of a request body are integers, written in decimal
      notation; the write operations refuse the ones that do not fit the
      [int] column that receives them.
    - The operations of the store return their errors as values and never
      throw, so the [try]/[catch] of the handlers (answer 500) has no case
      here; logging is left out.
    - Row level security is not part of the model: every handler reaches the
      tables through the identity that [requireAuth] resolved, and reads the
      views with the rights of their owner. *)

From stdpp Require Import gmap strings list fin_maps sorting pretty.
From Equations Require Import Equations.

Local Open Scope Z_scope.

(** ** Primitive data *)

Abbreviation uuid := nat.
Abbreviation timestamp := Z.

Definition dquote : string := String (Ascii.ascii_of_nat 34) EmptyString.
Definition quoted (s : string) : string := dquote +:+ s +:+ dquote.

(** [String.prototype.includes] *)
Fixpoint includes (needle s : string) : bool :=
  String.prefix needle s ||
  match s with
  | EmptyString => false
  | String _ s' => includes needle s'
  end.

(** Strings hold the UTF-8 encoding of the text. *)
Definition byte (c : Ascii.ascii) : nat := Ascii.nat_of_ascii c.
Definition byte_is (n : nat) (c : Ascii.ascii) : bool := (byte c =? n)%nat.

(** [String.prototype.length]: the number of UTF-16 code units. A code point
    counts for one unit at its first byte, and for two when it is encoded in
    four bytes; the continuation bytes (128 to 191) count for none. *)
Definition code_units (c : Ascii.ascii) : nat :=
  if (byte c <? 128)%nat then 1%nat
  else if (byte c <? 192)%nat then 0%nat
  else if (byte c <? 240)%nat then 1%nat
  else 2%nat.
Fixpoint js_length (s : string) : nat :=
  match s with
  | EmptyString => 0%nat
  | String c s' => (code_units c + js_length s')%nat
  end.

(** The white space and the line terminators of ECMAScript, by the bytes of
    their encoding: U+0009 to U+000D and U+0020 in one byte; U+00A0 in two;
    U+1680, U+2000 to U+200A, U+2028, U+2029, U+202F, U+205F, U+3000 and
    U+FEFF in three. *)
Definition is_space (c : Ascii.ascii) : bool :=
  ((9 <=? byte c) && (byte c <=? 13))%nat || byte_is 32 c.
Definition is_space2 (a b : Ascii.ascii) : bool := byte_is 194 a && byte_is 160 b.
Definition is_space3 (a b c : Ascii.ascii) : bool :=
  byte_is 225 a && byte_is 154 b && byte_is 128 c ||
  byte_is 226 a && byte_is 128 b &&
    ((128 <=? byte c) && (byte c <=? 138))%nat ||
  byte_is 226 a && byte_is 128 b &&
    (byte_is 168 c || byte_is 169 c || byte_is 175 c) ||
  byte_is 226 a && byte_is 129 b && byte_is 159 c ||
  byte_is 227 a && byte_is 128 b && byte_is 128 c ||
  byte_is 239 a && byte_is 187 b && byte_is 191 c.

(** [String.prototype.trim] *)
Fixpoint trim_start (s : string) : string :=
  match s with
  | String a s1 =>
      if is_space a then trim_start s1
      else match s1 with
           | String b s2 =>
               if is_space2 a b then trim_start s2
               else match s2 with
                    | String c s3 => if is_space3 a b c then trim_start s3 else s
                    | EmptyString => s
                    end
           | EmptyString => s
           end
  | EmptyString => EmptyString
  end.

(** The end of the result is where only white space follows. *)
Fixpoint trim_end (s : string) : string :=
  match s with
  | EmptyString => EmptyString
  | String c s' =>
      match trim_start s with
      | EmptyString => EmptyString
      | _ => String c (trim_end s')
      end
  end.

Definition trim (s : string) : string := trim_end (trim_start s).

(** JSON values, for the [jsonb] column [time_slots] ([z.any()]). *)
#[local] Unset Elimination Schemes.
Inductive Json :=
| JNull
| JBool (b : bool)
| JNum (n : Z)
| JStr (s : string)
| JArr (l : list Json)
| JObj (l : list (string * Json)).
#[local] Set Elimination Schemes.

(** JavaScript truthiness, as used by [x || null]. *)
Definition truthy_string (s : string) : bool :=
  match s with EmptyString => false | _ => true end.
Definition truthy_number (n : Z) : bool := negb (n =? 0).
Definition truthy_json (j : Json) : bool :=
  match j with
  | JNull => false
  | JBool b => b
  | JNum n => truthy_number n
  | JStr s => truthy_string s
  | JArr _ | JObj _ => true
  end.

(** [x || null] for an optional field [x]; [None] is both [undefined] (as
    input) and [null] (as output). *)
Definition or_null {A} (truthy : A → bool) (x : option A) : option A :=
  match x with
  | Some v => if truthy v then Some v else None
  | None => None
  end.

(** ** The persistence boundary *)

Record PgError := { code : string; message : string }.

Definition unique_violation (constraint : string) : PgError :=
  {| code := "23505";
     message := "duplicate key value violates unique constraint " +:+ quoted constraint |}.
Definition foreign_key_violation (table constraint : string) : PgError :=
  {| code := "23503";
     message := "insert or update on table " +:+ quoted table +:+
                " violates foreign key constraint " +:+ quoted constraint |}.
Definition check_violation (table constraint : string) : PgError :=
  {| code := "23514";
     message := "new row for relation " +:+ quoted table +:+
                " violates check constraint " +:+ quoted constraint |}.
Definition not_single : PgError :=
  {| code := "PGRST116";
     message := "JSON object requested, multiple (or no) rows returned" |}.
Definition invalid_uuid (text : string) : PgError :=
  {| code := "22P02";
     message := "invalid input syntax for type uuid: " +:+ quoted text |}.

(** The type [int] of the columns that hold a number of a request. A number
    outside of it is refused when the row is read from the request, before
    the statement touches the table; the columns are read in the order of
    their names. *)
Definition int_min : Z := -2147483648.
Definition int_max : Z := 2147483647.
Definition int_range (n : Z) : Prop := int_min ≤ n ≤ int_max.
#[global] Instance int_range_dec n : Decision (int_range n).
Proof. unfold int_range. apply _. Defined.

Definition numeric_value_out_of_range (n : Z) : PgError :=
  {| code := "22003";
     message := "value " +:+ quoted (pretty n) +:+ " is out of range for type integer" |}.

(** The error of the first of the numbers that is no [int]; [None] is [null]. *)
Fixpoint int_columns (values : list (option Z)) : option PgError :=
  match values with
  | [] => None
  | Some n :: values' =>
      if decide (int_range n) then int_columns values'
      else Some (numeric_value_out_of_range n)
  | None :: values' => int_columns values'
  end.

(** Rows: the columns of each table but [id], which is the key. *)
Record User := {
  u_auth_id : uuid;
  u_role : string;
  u_created_at : timestamp;
  u_updated_at : timestamp }.

Record Profile := {
  p_user_id : uuid;
  p_name : string;
  p_phone : string;
  p_block : option string;
  p_flat_no : option string;
  p_age : option Z;
  p_verified : bool;
  p_created_at : timestamp;
  p_updated_at : timestamp }.

Record WorkerProfile := {
  wp_user_id : uuid;
  wp_worker_type : string;
  wp_cuisine : option string;
  wp_experience_yrs : Z;
  wp_charges : Z;
  wp_long_term_offer : option string;
  wp_rating : Z;
  wp_rating_count : Z;
  wp_time_slots : option Json;
  wp_created_at : timestamp;
  wp_updated_at : timestamp }.

Record ServicePost := {
  sp_worker_id : uuid;
  sp_title : string;
  sp_cuisine : option string;
  sp_price : Z;
  sp_service_area : option string;
  sp_available_timing : option string;
  sp_description : option string;
  sp_time_slots : option Json;
  sp_is_active : bool;
  sp_created_at : timestamp;
  sp_updated_at : timestamp }.

Record Requirement := {
  r_owner_id : uuid;
  r_need_type : string;
  r_details : option string;
  r_preferred_timing : option string;
  r_preferred_price : option Z;
  r_block : option string;
  r_flat_no : option string;
  r_urgency : string;
  r_is_open : bool;
  r_created_at : timestamp;
  r_updated_at : timestamp }.

Record Store := {
  users : gmap nat User;
  profiles : gmap nat Profile;
  worker_profiles : gmap nat WorkerProfile;
  service_posts : gmap nat ServicePost;
  requirements : gmap nat Requirement }.

Definition with_users (f : gmap nat User → gmap nat User) (st : Store) : Store :=
  {| users := f (users st); profiles := profiles st;
     worker_profiles := worker_profiles st; service_posts := service_posts st;
     requirements := requirements st |}.
Definition with_profiles (f : gmap nat Profile → gmap nat Profile) (st : Store) : Store :=
  {| users := users st; profiles := f (profiles st);
     worker_profiles := worker_profiles st; service_posts := service_posts st;
     requirements := requirements st |}.
Definition with_service_posts (f : gmap nat ServicePost → gmap nat ServicePost)
    (st : Store) : Store :=
  {| users := users st; profiles := profiles st;
     worker_profiles := worker_profiles st; service_posts := f (service_posts st);
     requirements := requirements st |}.
Definition with_requirements (f : gmap nat Requirement → gmap nat Requirement)
    (st : Store) : Store :=
  {| users := users st; profiles := profiles st;
     worker_profiles := worker_profiles st; service_posts := service_posts st;
     requirements := f (requirements st) |}.

(** [select ... where P]: the rows of a table that satisfy a filter, each with
    its key. *)
Definition rows_where {A} (P : A → Prop) `{!∀ x, Decision (P x)}
    (m : gmap nat A) : list (nat * A) :=
  map_to_list (filter (λ kv, P kv.2) m).

(** [select ... where id = i], a lookup by primary key. *)
Definition rows_with_key {A} (m : gmap nat A) (i : nat) : list (nat * A) :=
  match m !! i with Some x => [(i, x)] | None => [] end.

(** The result of a query: [{ data, error }]. *)
Definition QueryResult (A : Type) : Type := (PgError + A)%type.

(** [.maybeSingle()]: no row is [null] without an error, several are an error. *)
Definition maybeSingle {A} (rows : list A) : QueryResult (option A) :=
  match rows with
  | [] => inr None
  | [x] => inr (Some x)
  | _ => inl not_single
  end.

(** [.single()]: exactly one row, otherwise an error. *)
Definition single {A} (rows : list A) : QueryResult A :=
  match rows with
  | [x] => inr x
  | _ => inl not_single
  end.

(** [const { data } = await ...]: the error is dropped, [data] is [null]. *)
Definition data {A} (r : QueryResult (option A)) : option A :=
  match r with inr d => d | inl _ => None end.

Definition query_then {A B} (r : QueryResult A) (f : A → QueryResult B)
    : QueryResult B :=
  match r with inl e => inl e | inr x => f x end.

Definition new_id {A} (m : gmap nat A) : nat := fresh (dom m).

(** [.select(...).single()] after a write: PostgREST aborts the transaction
    when the statement did not return exactly one row. *)
Definition commit_single {A} (st : Store)
    (r : Store * QueryResult (list A)) : Store * QueryResult A :=
  match r with
  | (st', inr [x]) => (st', inr x)
  | (_, inr _) => (st, inl not_single)
  | (_, inl e) => (st, inl e)
  end.

(** *** Table [users] *)

Definition roles : list string := ["RESIDENT"; "WORKER"].

Definition select_users_by_auth_id (st : Store) (authId : uuid) : list (nat * User) :=
  rows_where (λ u, u_auth_id u = authId) (users st).

Definition set_role (role : string) (u : User) : User :=
  {| u_auth_id := u_auth_id u; u_role := role;
     u_created_at := u_created_at u; u_updated_at := u_updated_at u |}.

(** [insert into users (auth_id, role)]: the check on [role], then the unique
    index on [auth_id]. *)
Definition insert_user (now : timestamp) (authId : uuid) (role : string)
    (st : Store) : Store * QueryResult (list (nat * User)) :=
  if decide (role ∈ roles) then
    if decide (select_users_by_auth_id st authId = []) then
      let id := new_id (users st) in
      let row := {| u_auth_id := authId; u_role := role;
                    u_created_at := now; u_updated_at := now |} in
      (with_users (insert id row) st, inr [(id, row)])
    else (st, inl (unique_violation "users_auth_id_key"))
  else (st, inl (check_violation "users" "users_role_check")).

(** [update users set role = ... where auth_id = ...] *)
Definition update_user_role (authId : uuid) (role : string)
    (st : Store) : Store * QueryResult (list (nat * User)) :=
  if decide (select_users_by_auth_id st authId = []) then (st, inr [])
  else if decide (role ∈ roles) then
    let st' := with_users (fmap (λ u, if decide (u_auth_id u = authId)
                                      then set_role role u else u)) st in
    (st', inr (select_users_by_auth_id st' authId))
  else (st, inl (check_violation "users" "users_role_check")).

(** *** Table [profiles] *)

Record ProfileValues := {
  pv_name : string;
  pv_phone : string;
  pv_block : option string;
  pv_flat_no : option string;
  pv_age : option Z;
  pv_verified : bool }.

Definition select_profiles_by_user_id (st : Store) (userId : uuid) : list (nat * Profile) :=
  rows_where (λ p, p_user_id p = userId) (profiles st).

Definition set_profile (v : ProfileValues) (p : Profile) : Profile :=
  {| p_user_id := p_user_id p; p_name := pv_name v; p_phone := pv_phone v;
     p_block := pv_block v; p_flat_no := pv_flat_no v; p_age := pv_age v;
     p_verified := pv_verified v;
     p_created_at := p_created_at p; p_updated_at := p_updated_at p |}.

(** [insert into profiles]: the foreign key to [users], then the unique
    indexes in the order of their creation ([user_id], then [phone]). *)
Definition insert_profile (now : timestamp) (userId : uuid) (v : ProfileValues)
    (st : Store) : Store * QueryResult (list (nat * Profile)) :=
  match int_columns [pv_age v] with
  | Some e => (st, inl e)
  | None =>
      match users st !! userId with
      | None => (st, inl (foreign_key_violation "profiles" "profiles_user_id_fkey"))
      | Some _ =>
          if decide (select_profiles_by_user_id st userId = []) then
            if decide (rows_where (λ p, p_phone p = pv_phone v) (profiles st) = []) then
              let id := new_id (profiles st) in
              let row := {| p_user_id := userId; p_name := pv_name v;
                            p_phone := pv_phone v; p_block := pv_block v;
                            p_flat_no := pv_flat_no v; p_age := pv_age v;
                            p_verified := pv_verified v;
                            p_created_at := now; p_updated_at := now |} in
              (with_profiles (insert id row) st, inr [(id, row)])
            else (st, inl (unique_violation "profiles_phone_key"))
          else (st, inl (unique_violation "profiles_user_id_key"))
      end
  end.

(** [update profiles set ... where user_id = ...]: the new phone must not be
    the phone of a row that is not updated, nor be given to two rows. *)
Definition update_profile (userId : uuid) (v : ProfileValues)
    (st : Store) : Store * QueryResult (list (nat * Profile)) :=
  match int_columns [pv_age v] with
  | Some e => (st, inl e)
  | None =>
      let targets := select_profiles_by_user_id st userId in
      if decide (targets = []) then (st, inr [])
      else if decide (rows_where (λ p, p_phone p = pv_phone v ∧ p_user_id p ≠ userId)
                                 (profiles st) = [] ∧ (length targets ≤ 1)%nat) then
        let st' := with_profiles (fmap (λ p, if decide (p_user_id p = userId)
                                             then set_profile v p else p)) st in
        (st', inr (select_profiles_by_user_id st' userId))
      else (st, inl (unique_violation "profiles_phone_key"))
  end.

(** *** Table [worker_profiles] *)

Definition worker_types : list string := ["COOK"; "MAID"; "BOTH"].
Definition cuisines : list string := ["NORTH"; "SOUTH"; "BOTH"].

Definition optional_in (l : list string) (x : option string) : Prop :=
  match x with Some s => s ∈ l | None => True end.
#[global] Instance optional_in_dec l x : Decision (optional_in l x).
Proof. destruct x; simpl; apply _. Defined.

Definition select_worker_profiles_by_user_id (st : Store) (userId : uuid)
    : list (nat * WorkerProfile) :=
  rows_where (λ w, wp_user_id w = userId) (worker_profiles st).






(** *** Table [service_posts] *)

Record ServicePostValues := {
  sv_worker_id : uuid;
  sv_title : string;
  sv_cuisine : option string;
  sv_price : Z;
  sv_service_area : option string;
  sv_available_timing : option string;
  sv_description : option string;
  sv_time_slots : option Json }.

(** [insert into service_posts]: [is_active] takes its default [true]. *)
Definition insert_service_post (now : timestamp) (v : ServicePostValues)
    (st : Store) : Store * QueryResult (list (nat * ServicePost)) :=
  match int_columns [Some (sv_price v)] with
  | Some e => (st, inl e)
  | None =>
      if decide (optional_in cuisines (sv_cuisine v)) then
        match worker_profiles st !! sv_worker_id v with
        | None => (st, inl (foreign_key_violation "service_posts" "service_posts_worker_id_fkey"))
        | Some _ =>
            let id := new_id (service_posts st) in
            let row := {| sp_worker_id := sv_worker_id v; sp_title := sv_title v;
                          sp_cuisine := sv_cuisine v; sp_price := sv_price v;
                          sp_service_area := sv_service_area v;
                          sp_available_timing := sv_available_timing v;
                          sp_description := sv_description v;
                          sp_time_slots := sv_time_slots v;
                          sp_is_active := true;
                          sp_created_at := now; sp_updated_at := now |} in
            (with_service_posts (insert id row) st, inr [(id, row)])
        end
      else (st, inl (check_violation "service_posts" "service_posts_cuisine_check"))
  end.

Definition set_is_active (b : bool) (sp : ServicePost) : ServicePost :=
  {| sp_worker_id := sp_worker_id sp; sp_title := sp_title sp;
     sp_cuisine := sp_cuisine sp; sp_price := sp_price sp;
     sp_service_area := sp_service_area sp;
     sp_available_timing := sp_available_timing sp;
     sp_description := sp_description sp; sp_time_slots := sp_time_slots sp;
     sp_is_active := b;
     sp_created_at := sp_created_at sp; sp_updated_at := sp_updated_at sp |}.

(** A value compared with the [uuid] column [id]: [undefined] is sent as the
    text [undefined], which is not a uuid. *)
Definition rows_with_id {A} (m : gmap nat A) (id : option uuid)
    : QueryResult (list (nat * A)) :=
  match id with
  | None => inl (invalid_uuid "undefined")
  | Some i => inr (rows_with_key m i)
  end.

(** [update service_posts set is_active = ... where id = ...] *)
Definition update_service_post_is_active (id : option uuid) (b : bool)
    (st : Store) : Store * QueryResult (list (nat * ServicePost)) :=
  match id with
  | None => (st, inl (invalid_uuid "undefined"))
  | Some i =>
      let st' := with_service_posts (alter (set_is_active b) i) st in
      (st', rows_with_id (service_posts st') id)
  end.

(** [delete from service_posts where id = ...] *)
Definition delete_service_post (id : option uuid)
    (st : Store) : Store * QueryResult unit :=
  match id with
  | None => (st, inl (invalid_uuid "undefined"))
  | Some i => (with_service_posts (delete i) st, inr ())
  end.

(** *** View [service_posts_view] *)

Record ServicePostView := {
  spv_id : uuid;
  spv_worker_id : uuid;
  spv_title : string;
  spv_cuisine : option string;
  spv_price : Z;
  spv_service_area : option string;
  spv_available_timing : option string;
  spv_description : option string;
  spv_time_slots : option Json;
  spv_is_active : bool;
  spv_created_at : timestamp;
  spv_updated_at : timestamp;
  spv_user_id : uuid;
  spv_rating : Z;
  spv_rating_count : Z;
  spv_experience_yrs : Z;
  spv_role : string;
  spv_auth_id : uuid;
  spv_name : option string;
  spv_phone : option string }.

Definition left_join {A} (rows : list A) : list (option A) :=
  match rows with [] => [None] | _ => Some <$> rows end.

Definition service_posts_view_row (id : uuid) (sp : ServicePost)
    (wp : WorkerProfile) (u : User) (p : option (nat * Profile)) : ServicePostView :=
  {| spv_id := id; spv_worker_id := sp_worker_id sp; spv_title := sp_title sp;
     spv_cuisine := sp_cuisine sp; spv_price := sp_price sp;
     spv_service_area := sp_service_area sp;
     spv_available_timing := sp_available_timing sp;
     spv_description := sp_description sp; spv_time_slots := sp_time_slots sp;
     spv_is_active := sp_is_active sp;
     spv_created_at := sp_created_at sp; spv_updated_at := sp_updated_at sp;
     spv_user_id := wp_user_id wp; spv_rating := wp_rating wp;
     spv_rating_count := wp_rating_count wp;
     spv_experience_yrs := wp_experience_yrs wp;
     spv_role := u_role u; spv_auth_id := u_auth_id u;
     spv_name := p_name ∘ snd <$> p; spv_phone := p_phone ∘ snd <$> p |}.

(** [from service_posts sp join worker_profiles wp on wp.id = sp.worker_id
     join users u on u.id = wp.user_id left join profiles p on p.user_id = u.id] *)
Definition service_posts_view (st : Store) : list ServicePostView :=
  '(id, sp) ← map_to_list (service_posts st);
  '(_, wp) ← rows_with_key (worker_profiles st) (sp_worker_id sp);
  '(uid, u) ← rows_with_key (users st) (wp_user_id wp);
  p ← left_join (select_profiles_by_user_id st uid);
  [service_posts_view_row id sp wp u p].

(** [.order('created_at', { ascending: false })] *)
Definition newer_first (a b : ServicePostView) : Prop :=
  spv_created_at b ≤ spv_created_at a.
#[global] Instance newer_first_dec a b : Decision (newer_first a b).
Proof. unfold newer_first. apply _. Defined.

Definition order_by_created_at_desc (rows : list ServicePostView) : list ServicePostView :=
  merge_sort newer_first rows.

(** [.eq('id', serviceId).eq('auth_id', authId)] on the view *)
Definition select_service_posts_view_by_id_and_auth_id (st : Store)
    (serviceId : option uuid) (authId : uuid) : QueryResult (list ServicePostView) :=
  match serviceId with
  | None => inl (invalid_uuid "undefined")
  | Some i => inr (filter (λ r, spv_id r = i ∧ spv_auth_id r = authId)
                          (service_posts_view st))
  end.

(** *** Table [requirements] *)

Definition need_types : list string := ["COOK"; "MAID"; "BOTH"].
Definition urgencies : list string := ["LOW"; "MEDIUM"; "HIGH"].

Record RequirementValues := {
  rv_owner_id : uuid;
  rv_need_type : string;
  rv_details : option string;
  rv_preferred_timing : option string;
  rv_preferred_price : option Z;
  rv_block : option string;
  rv_flat_no : option string;
  rv_urgency : string }.

(** [insert into requirements]: [is_open] takes its default [true]. *)
Definition insert_requirement (now : timestamp) (v : RequirementValues)
    (st : Store) : Store * QueryResult (list (nat * Requirement)) :=
  match int_columns [rv_preferred_price v] with
  | Some e => (st, inl e)
  | None =>
      if decide (rv_need_type v ∈ need_types) then
      if decide (rv_urgency v ∈ urgencies) then
        match users st !! rv_owner_id v with
        | None => (st, inl (foreign_key_violation "requirements" "requirements_owner_id_fkey"))
        | Some _ =>
            let id := new_id (requirements st) in
            let row := {| r_owner_id := rv_owner_id v; r_need_type := rv_need_type v;
                          r_details := rv_details v;
                          r_preferred_timing := rv_preferred_timing v;
                          r_preferred_price := rv_preferred_price v;
                          r_block := rv_block v; r_flat_no := rv_flat_no v;
                          r_urgency := rv_urgency v; r_is_open := true;
                          r_created_at := now; r_updated_at := now |} in
            (with_requirements (insert id row) st, inr [(id, row)])
        end
      else (st, inl (check_violation "requirements" "requirements_urgency_check"))
      else (st, inl (check_violation "requirements" "requirements_need_type_check"))
  end.

(** *** The constraints of the schema that span rows *)

(** A column declared [unique]. *)
Definition unique_on {A B} (column : A → B) (m : gmap nat A) : Prop :=
  ∀ i j x y, m !! i = Some x → m !! j = Some y → column x = column y → i = j.

(** A foreign key: every row of [m] references a row of [target]. *)
Definition references {A B} (column : A → nat) (m : gmap nat A)
    (target : gmap nat B) : Prop :=
  map_Forall (λ _ x, is_Some (target !! column x)) m.

Record schema_ok (st : Store) : Prop := {
  users_auth_id_key : unique_on u_auth_id (users st);
  profiles_user_id_key : unique_on p_user_id (profiles st);
  profiles_phone_key : unique_on p_phone (profiles st);
  profiles_user_id_fkey : references p_user_id (profiles st) (users st);
  worker_profiles_user_id_key : unique_on wp_user_id (worker_profiles st);
  worker_profiles_user_id_fkey :
    references wp_user_id (worker_profiles st) (users st);
  service_posts_worker_id_fkey :
    references sp_worker_id (service_posts st) (worker_profiles st);
  requirements_owner_id_fkey : references r_owner_id (requirements st) (users st) }.

(** ** Requests and responses *)

Inductive Body :=
| BError (error : string) (details : option string)
| BValidationFailed
| BRoleSelected (userId : uuid) (role : string)
| BProfile (id : uuid) (row : Profile)
| BWorkerProfile (id : uuid) (row : WorkerProfile)
| BServicePost (id : uuid) (row : ServicePost)
| BServices (services : list ServicePostView)
| BRequirement (id : uuid) (row : Requirement)
| BSuccess (message : string).

Record Response := { status : Z; body : Body }.

Definition json (b : Body) : Response := {| status := 200; body := b |}.
Definition fail (s : Z) (error : string) : Response :=
  {| status := s; body := BError error None |}.
Definition fail_with (s : Z) (error : string) (e : PgError) : Response :=
  {| status := s; body := BError error (Some (message e)) |}.

(** A request that passed [requireAuth]: [req.user.authId], the path
    parameters [req.params] and the JSON body. *)
Record Request (B : Type) := {
  user_authId : uuid;
  params : gmap string nat;
  req_body : B }.
Arguments user_authId {B} _.
Arguments params {B} _.
Arguments req_body {B} _.

(** The parameters that the router binds for a path matching a route with
    the single parameter [:id]. *)
Definition route_id_params (id : uuid) : gmap string nat := {[ "id" := id ]}.

(** *** Validation schemas *)

Record RoleSelectionBody := { role : string }.
Definition RoleSelectionBody_ok (b : RoleSelectionBody) : Prop := role b ∈ roles.
#[global] Instance RoleSelectionBody_ok_dec b : Decision (RoleSelectionBody_ok b).
Proof. unfold RoleSelectionBody_ok. apply _. Defined.

Definition optional_min (lo : Z) (x : option Z) : Prop :=
  match x with Some n => lo ≤ n | None => True end.
#[global] Instance optional_min_dec lo x : Decision (optional_min lo x).
Proof. destruct x; simpl; apply _. Defined.

Record ProfileBody := {
  name : string;
  phone : string;
  block : option string;
  flatNo : option string;
  age : option Z }.
Definition ProfileBody_ok (b : ProfileBody) : Prop :=
  (1 ≤ String.length (name b))%nat ∧ (10 ≤ js_length (phone b))%nat ∧
  optional_min 1 (age b).
#[global] Instance ProfileBody_ok_dec b : Decision (ProfileBody_ok b).
Proof. unfold ProfileBody_ok. apply _. Defined.

(** [experienceYrs] is [None] when absent; parsing fills in the default 0. *)
Record WorkerProfileBody := {
  workerType : string;
  wb_cuisine : option string;
  experienceYrs : option Z;
  charges : Z;
  longTermOffer : option string;
  wb_timeSlots : option Json }.
Definition WorkerProfileBody_ok (b : WorkerProfileBody) : Prop :=
  workerType b ∈ worker_types ∧ optional_in cuisines (wb_cuisine b) ∧
  optional_min 0 (experienceYrs b) ∧ 1 ≤ charges b.
#[global] Instance WorkerProfileBody_ok_dec b : Decision (WorkerProfileBody_ok b).
Proof. unfold WorkerProfileBody_ok. apply _. Defined.


Record ServicePostBody := {
  title : string;
  cuisine : option string;
  price : Z;
  serviceArea : option string;
  availableTiming : option string;
  description : option string;
  timeSlots : option Json }.
Definition ServicePostBody_ok (b : ServicePostBody) : Prop :=
  (1 ≤ String.length (title b))%nat ∧ optional_in cuisines (cuisine b) ∧ 1 ≤ price b.
#[global] Instance ServicePostBody_ok_dec b : Decision (ServicePostBody_ok b).
Proof. unfold ServicePostBody_ok. apply _. Defined.

(** [urgency] is [None] when absent; parsing fills in the default MEDIUM. *)
Record RequirementPostBody := {
  needType : string;
  details : option string;
  preferredTiming : option string;
  preferredPrice : option Z;
  rb_block : option string;
  rb_flatNo : option string;
  urgency : option string }.
Definition RequirementPostBody_ok (b : RequirementPostBody) : Prop :=
  needType b ∈ need_types ∧ optional_min 0 (preferredPrice b) ∧
  optional_in urgencies (urgency b).
#[global] Instance RequirementPostBody_ok_dec b : Decision (RequirementPostBody_ok b).
Proof. unfold RequirementPostBody_ok. apply _. Defined.

(** ** Workflow handlers *)

(** [POST /select-role] *)
Definition post_select_role (now : timestamp) (req : Request RoleSelectionBody)
    (st : Store) : Store * Response :=
  if decide (RoleSelectionBody_ok (req_body req)) then
    let authId := user_authId req in
    let parsed_role := role (req_body req) in
    match maybeSingle (select_users_by_auth_id st authId) with
    | inl euErr => (st, fail_with 500 "Failed to load user" euErr)
    | inr None =>
        match commit_single st (insert_user now authId parsed_role st) with
        | (st', inl e) => (st', fail_with 500 "Failed to create user" e)
        | (st', inr (userId, _)) => (st', json (BRoleSelected userId parsed_role))
        end
    | inr (Some _) =>
        match commit_single st (update_user_role authId parsed_role st) with
        | (st', inl e) => (st', fail_with 500 "Failed to update role" e)
        | (st', inr (userId, _)) => (st', json (BRoleSelected userId parsed_role))
        end
    end
  else (st, fail 422 "Invalid role. Must be RESIDENT or WORKER").

(** [POST /profile]: the values written by both branches. *)
Definition profile_values (parsed : ProfileBody) : ProfileValues :=
  {| pv_name := name parsed;
     pv_phone := trim (phone parsed);
     pv_block := or_null truthy_string (block parsed);
     pv_flat_no := or_null truthy_string (flatNo parsed);
     pv_age := or_null truthy_number (age parsed);
     pv_verified := true |}.

(** The write: update when a profile was found for the user, insert otherwise. *)
Definition post_profile_write (now : timestamp) (userId : uuid)
    (existingProfile : option (nat * Profile)) (parsed : ProfileBody)
    (st : Store) : Store * QueryResult (nat * Profile) :=
  match existingProfile with
  | Some _ => commit_single st (update_profile userId (profile_values parsed) st)
  | None => commit_single st (insert_profile now userId (profile_values parsed) st)
  end.

(** The response to the result of the write. *)
Definition post_profile_respond (profileRes : QueryResult (nat * Profile)) : Response :=
  match profileRes with
  | inl error =>
      if decide (code error = "23505") then
        if includes "phone" (message error)
        then fail 409 "Phone number already in use"
        else fail 409 "Profile already exists"
      else fail_with 500 "Failed to save profile" error
  | inr (id, row) => json (BProfile id row)
  end.

Definition post_profile (now : timestamp) (req : Request ProfileBody)
    (st : Store) : Store * Response :=
  if decide (ProfileBody_ok (req_body req)) then
    let authId := user_authId req in
    match maybeSingle (select_users_by_auth_id st authId) with
    | inl euErr => (st, fail_with 500 "Failed to load user" euErr)
    | inr (Some (userId, existingUser)) =>
        if truthy_string (u_role existingUser) then
          let existingProfile := data (maybeSingle (select_profiles_by_user_id st userId)) in
          let '(st', profileRes) :=
            post_profile_write now userId existingProfile (req_body req) st in
          (st', post_profile_respond profileRes)
        else (st, fail 400 "Please select your role first using /select-role")
    | inr None => (st, fail 400 "Please select your role first using /select-role")
    end
  else (st, {| status := 422; body := BValidationFailed |}).




(** [GET /services] (public) *)
Definition get_services (st : Store) : Response :=
  let services :=
    order_by_created_at_desc
      (filter (λ r, spv_is_active r = true) (service_posts_view st)) in
  json (BServices services).

(** [POST /services] *)
Definition service_post_values (workerProfileId : uuid) (parsed : ServicePostBody)
    : ServicePostValues :=
  {| sv_worker_id := workerProfileId;
     sv_title := title parsed;
     sv_cuisine := or_null truthy_string (cuisine parsed);
     sv_price := price parsed;
     sv_service_area := or_null truthy_string (serviceArea parsed);
     sv_available_timing := or_null truthy_string (availableTiming parsed);
     sv_description := or_null truthy_string (description parsed);
     sv_time_slots := or_null truthy_json (timeSlots parsed) |}.

Definition post_services (now : timestamp) (req : Request ServicePostBody)
    (st : Store) : Store * Response :=
  if decide (ServicePostBody_ok (req_body req)) then
    let authId := user_authId req in
    match data (maybeSingle (select_users_by_auth_id st authId)) with
    | Some (userId, user) =>
        if decide (u_role user = "WORKER") then
          match data (maybeSingle (select_worker_profiles_by_user_id st userId)) with
          | None => (st, fail 400 "Please complete your worker profile first")
          | Some (workerProfileId, _) =>
              match commit_single st
                      (insert_service_post now
                         (service_post_values workerProfileId (req_body req)) st) with
              | (st', inl e) => (st', fail_with 500 "Failed to create service post" e)
              | (st', inr (id, row)) => (st', json (BServicePost id row))
              end
          end
        else (st, fail 403 "Only workers can post services")
    | None => (st, fail 403 "Only workers can post services")
    end
  else (st, {| status := 422; body := BValidationFailed |}).

(** [PATCH /services/:id/toggle] *)
Definition patch_services_toggle (req : Request unit) (st : Store) : Store * Response :=
  let authId := user_authId req in
  let serviceId := params req !! "id" in
  match data (query_then
                (select_service_posts_view_by_id_and_auth_id st serviceId authId)
                maybeSingle) with
  | None => (st, fail 404 "Service not found or not owned by you")
  | Some service =>
      match commit_single st
              (update_service_post_is_active serviceId
                 (negb (spv_is_active service)) st) with
      | (st', inl e) => (st', fail_with 500 "Failed to update service" e)
      | (st', inr (id, row)) => (st', json (BServicePost id row))
      end
  end.

(** [DELETE /services/:id] *)
Definition delete_services (req : Request unit) (st : Store) : Store * Response :=
  let authId := user_authId req in
  let serviceId := params req !! "serviceId" in
  match query_then
          (select_service_posts_view_by_id_and_auth_id st serviceId authId)
          single with
  | inl _ => (st, fail 404 "Service not found or not owned by you")
  | inr _ =>
      match delete_service_post serviceId st with
      | (st', inl e) => (st', fail_with 500 "Failed to delete service" e)
      | (st', inr _) => (st', json (BSuccess "Service deleted successfully"))
      end
  end.

(** [POST /requirements] *)
Definition requirement_values (ownerId : uuid) (parsed : RequirementPostBody)
    : RequirementValues :=
  {| rv_owner_id := ownerId;
     rv_need_type := needType parsed;
     rv_details := or_null truthy_string (details parsed);
     rv_preferred_timing := or_null truthy_string (preferredTiming parsed);
     rv_preferred_price := or_null truthy_number (preferredPrice parsed);
     rv_block := or_null truthy_string (rb_block parsed);
     rv_flat_no := or_null truthy_string (rb_flatNo parsed);
     rv_urgency := default "MEDIUM" (urgency parsed) |}.

Definition post_requirements (now : timestamp) (req : Request RequirementPostBody)
    (st : Store) : Store * Response :=
  if decide (RequirementPostBody_ok (req_body req)) then
    let authId := user_authId req in
    match data (maybeSingle (select_users_by_auth_id st authId)) with
    | Some (userId, user) =>
        if decide (u_role user = "RESIDENT") then
          match commit_single st
                  (insert_requirement now (requirement_values userId (req_body req)) st) with
          | (st', inl e) => (st', fail_with 500 "Failed to create requirement" e)
          | (st', inr (id, row)) => (st', json (BRequirement id row))
          end
        else (st, fail 403 "Only residents can post requirements")
    | None => (st, fail 403 "Only residents can post requirements")
    end
  else (st, {| status := 422; body := BValidationFailed |}).

(** ** Translation proxy *)

Definition SUPPORTED_LANGUAGES : gmap string string :=
  list_to_map
    [("en", "English"); ("hi", "Hindi"); ("ta", "Tamil"); ("te", "Telugu");
     ("kn", "Kannada"); ("ml", "Malayalam"); ("bn", "Bengali"); ("mr", "Marathi");
     ("gu", "Gujarati"); ("pa", "Punjabi")].

(** The property names that every object inherits from [Object.prototype];
    [key in object] is true for them too. *)
Definition Object_prototype_keys : list string :=
  ["constructor"; "__defineGetter__"; "__defineSetter__"; "hasOwnProperty";
   "__lookupGetter__"; "__lookupSetter__"; "isPrototypeOf";
   "propertyIsEnumerable"; "toString"; "valueOf"; "__proto__"; "toLocaleString"].

(** [SUPPORTED_LANGUAGES[code]] inside a template literal: the name of an own
    key; for an inherited key the text of the inherited property, which is
    [Object.prototype] itself for [__proto__] and a native function for the
    others; [undefined] for every other key. *)
Definition language_name (code : string) : string :=
  match SUPPORTED_LANGUAGES !! code with
  | Some name => name
  | None =>
      if decide (code = "__proto__") then "[object Object]"
      else if decide (code = "constructor") then "function Object() { [native code] }"
      else if decide (code ∈ Object_prototype_keys)
           then "function " +:+ code +:+ "() { [native code] }"
      else "undefined"
  end.

Inductive TranslationContext := service | requirement | profile | general.

Record TranslationRequest := {
  text : string;
  fromLanguage : string;
  toLanguage : string;
  context_ : option TranslationContext }.

(** [s.replace(/^["']|["']$/g, '')] *)
Definition is_quote (c : Ascii.ascii) : bool :=
  let n := Ascii.nat_of_ascii c in (n =? 34)%nat || (n =? 39)%nat.
Definition strip_leading_quote (s : string) : string :=
  match s with
  | String c s' => if is_quote c then s' else s
  | EmptyString => EmptyString
  end.
Fixpoint strip_trailing_quote (s : string) : string :=
  match s with
  | EmptyString => EmptyString
  | String c EmptyString => if is_quote c then EmptyString else s
  | String c s' => String c (strip_trailing_quote s')
  end.
Definition strip_quotes (s : string) : string :=
  strip_trailing_quote (strip_leading_quote s).

Definition contextPrompt (c : TranslationContext) : string :=
  match c with
  | service => "This is about cooking/maid services. "
  | requirement => "This is about household service requirements. "
  | profile => "This is profile information for a service provider. "
  | general => EmptyString
  end.

Definition translation_prompt (c : TranslationContext) (fromLang toLang text : string)
    : string :=
  contextPrompt c +:+ "Translate the following text from " +:+ fromLang +:+ " to " +:+
  toLang +:+ ". 
    
    IMPORTANT RULES:
    1. Translate descriptive content, cooking terms, and service descriptions
    2. DO NOT translate: phone numbers, email addresses, prices (₹), specific addresses (Block/Flat numbers), timestamps, usernames
    3. Keep English words that are commonly understood: " +:+ quoted "Block" +:+ ", " +:+
  quoted "Flat" +:+ ", numbers, " +:+ quoted "₹" +:+ ", " +:+ quoted "By:" +:+
  ", phone numbers, time formats
    4. Focus on translating the actual service/requirement description and user-facing labels like " +:+
  quoted "Priority" +:+ ", " +:+ quoted "Preferred Time" +:+ ", " +:+ quoted "Budget" +:+
  ", " +:+ quoted "Location" +:+ "
    5. Preserve formatting, emojis, and structure exactly
    6. Translate labels like " +:+ quoted "BOTHLOW Priority" +:+ " → " +:+
  quoted "निम्न प्राथमिकता" +:+ " but keep " +:+ quoted "Block J Flat 103" +:+ " as is
    7. Keep cooking terms, food names, and service-related terminology accurate for Indian context
    
    Only return the translated text, nothing else.
    
    Text to translate: " +:+ quoted text.

(** The external language model: a prompt is answered by the response text
    ([inr]) or the call throws ([inl], with the message of the error); the
    service has a state of its own. *)
Record LanguageModel := {
  model_state : Type;
  generateContent : string → model_state → (string + string) * model_state }.

Section Translation.
Variable model : LanguageModel.

(** The state of the outside world: the state of the service and the
    prompts sent to it so far. *)
Record Ext := { world : model_state model; calls : list string }.

(** An asynchronous computation: it settles as rejected ([inl]) or
    fulfilled ([inr]). *)
Definition Async (A : Type) : Type := Ext → (string + A) * Ext.

#[export] Instance Async_ret : MRet Async := λ A x s, (inr x, s).
#[export] Instance Async_bind : MBind Async := λ A B f m s,
  match m s with
  | (inl e, s') => (inl e, s')
  | (inr x, s') => f x s'
  end.

Definition try_catch {A} (m : Async A) (handler : string → Async A) : Async A :=
  λ s, match m s with
       | (inl e, s') => handler e s'
       | (inr x, s') => (inr x, s')
       end.

(** [(await model.generateContent(prompt)).response.text()] *)
Definition model_generateContent (prompt : string) : Async string :=
  λ s, let '(r, w) := generateContent model prompt (world s) in
       (r, {| world := w; calls := calls s ++ [prompt] |}).

Definition translateText (req : TranslationRequest) : Async string :=
  let context := default general (context_ req) in
  try_catch
    (if decide (fromLanguage req = toLanguage req) then mret (text req)
     else
       let fromLang := language_name (fromLanguage req) in
       let toLang := language_name (toLanguage req) in
       let prompt := translation_prompt context fromLang toLang (text req) in
       response_text ← model_generateContent prompt;
       let translatedText := trim response_text in
       mret (strip_quotes translatedText))
    (λ error, mret (text req)).

(** [Promise.all]: every computation of the list has been started; the
    results are collected by position, and one rejection rejects the whole. *)
Fixpoint Promise_all {A} (promises : list (Async A)) : Async (list A) :=
  match promises with
  | [] => mret []
  | p :: promises' =>
      λ s, let '(r, s1) := p s in
           let '(rs, s2) := Promise_all promises' s1 in
           (match r, rs with
            | inl e, _ => inl e
            | inr _, inl e => inl e
            | inr x, inr xs => inr (x :: xs)
            end, s2)
  end.

Definition batchSize : nat := 5.

(** [texts.slice(i, j)] for [i ≤ j] *)
Definition slice {A} (i j : nat) (l : list A) : list A := take (j - i) (drop i l).

(** The [for] loop of [translateBatch], over any translation of one text. *)
Equations? translateBatch_loop (translate : string → Async string)
    (texts : list string) (i : nat) (results : list string)
    : Async (list string) by wf (length texts - i)%nat lt :=
  translateBatch_loop translate texts i results with decide (i < length texts)%nat := {
    | left _ =>
        batchResults ← Promise_all (translate <$> slice i (i + batchSize) texts);
        translateBatch_loop translate texts (i + batchSize) (results ++ batchResults)
    | right _ => mret results }.
Proof. unfold batchSize. lia. Qed.

(** The batches of the loop, one after the other: each is awaited before
    the next one is started, and its results are appended. *)
Fixpoint run_batches (translate : string → Async string)
    (batches : list (list string)) (results : list string) : Async (list string) :=
  match batches with
  | [] => mret results
  | batch :: batches' =>
      batchResults ← Promise_all (translate <$> batch);
      run_batches translate batches' (results ++ batchResults)
  end.

(** A computation that never rejects. *)
Definition fulfils {A B} (f : A → Async B) : Prop :=
  ∀ x s, ∃ r s', f x s = (inr r, s').

Definition translateBatch_with (translate : string → Async string)
    (texts : list string) : Async (list string) :=
  try_catch (translateBatch_loop translate texts 0 []) (λ error, mret texts).

Definition translateBatch (texts : list string) (fromLanguage toLanguage : string)
    (context : option TranslationContext) : Async (list string) :=
  translateBatch_with
    (λ text, translateText {| text := text; fromLanguage := fromLanguage;
                              toLanguage := toLanguage; context_ := context |})
    texts.
End Translation.

(** The slices that the loop of [translateBatch] takes from index [i] on. *)
Equations? batches (texts : list string) (i : nat) : list (list string)
    by wf (length texts - i)%nat lt :=
  batches texts i with decide (i < length texts)%nat := {
    | left _ => slice i (i + batchSize) texts :: batches texts (i + batchSize)
    | right _ => [] }.
Proof. unfold batchSize. lia. Qed.

(** ** The other handlers of the workflow *)

(** [const { data } = await ...single()] *)
Definition data_of {A} (r : QueryResult A) : option A :=
  match r with inr x => Some x | inl _ => None end.

(** *** View [users_view] *)

Record UserView := {
  uv_id : uuid;
  uv_auth_id : uuid;
  uv_role : string;
  uv_created_at : timestamp;
  uv_updated_at : timestamp;
  uv_name : option string;
  uv_phone : option string;
  uv_block : option string;
  uv_flat_no : option string;
  uv_age : option Z;
  uv_verified : option bool;
  uv_worker_type : option string;
  uv_cuisine : option string;
  uv_experience_yrs : option Z;
  uv_charges : option Z;
  uv_long_term_offer : option string;
  uv_rating : option Z;
  uv_rating_count : option Z;
  uv_time_slots : option Json }.

Definition users_view_row (id : uuid) (u : User) (p : option (nat * Profile))
    (w : option (nat * WorkerProfile)) : UserView :=
  {| uv_id := id; uv_auth_id := u_auth_id u; uv_role := u_role u;
     uv_created_at := u_created_at u; uv_updated_at := u_updated_at u;
     uv_name := p_name ∘ snd <$> p; uv_phone := p_phone ∘ snd <$> p;
     uv_block := p ≫= p_block ∘ snd; uv_flat_no := p ≫= p_flat_no ∘ snd;
     uv_age := p ≫= p_age ∘ snd; uv_verified := p_verified ∘ snd <$> p;
     uv_worker_type := wp_worker_type ∘ snd <$> w;
     uv_cuisine := w ≫= wp_cuisine ∘ snd;
     uv_experience_yrs := wp_experience_yrs ∘ snd <$> w;
     uv_charges := wp_charges ∘ snd <$> w;
     uv_long_term_offer := w ≫= wp_long_term_offer ∘ snd;
     uv_rating := wp_rating ∘ snd <$> w;
     uv_rating_count := wp_rating_count ∘ snd <$> w;
     uv_time_slots := w ≫= wp_time_slots ∘ snd |}.

(** [from users u left join profiles p on p.user_id = u.id
     left join worker_profiles wp on wp.user_id = u.id] *)
Definition users_view (st : Store) : list UserView :=
  '(id, u) ← map_to_list (users st);
  p ← left_join (select_profiles_by_user_id st id);
  w ← left_join (select_worker_profiles_by_user_id st id);
  [users_view_row id u p w].

Definition select_users_view_by_auth_id (st : Store) (authId : uuid) : list UserView :=
  filter (λ r, uv_auth_id r = authId) (users_view st).

(** *** View [requirements_view] *)

Record RequirementView := {
  rqv_id : uuid;
  rqv_owner_id : uuid;
  rqv_need_type : string;
  rqv_details : option string;
  rqv_preferred_timing : option string;
  rqv_preferred_price : option Z;
  rqv_block : option string;
  rqv_flat_no : option string;
  rqv_urgency : string;
  rqv_is_open : bool;
  rqv_created_at : timestamp;
  rqv_updated_at : timestamp;
  rqv_role : string;
  rqv_name : option string;
  rqv_phone : option string;
  rqv_profile_block : option string;
  rqv_profile_flat_no : option string }.

Definition requirements_view_row (id : uuid) (r : Requirement) (u : User)
    (p : option (nat * Profile)) : RequirementView :=
  {| rqv_id := id; rqv_owner_id := r_owner_id r; rqv_need_type := r_need_type r;
     rqv_details := r_details r; rqv_preferred_timing := r_preferred_timing r;
     rqv_preferred_price := r_preferred_price r;
     rqv_block := r_block r; rqv_flat_no := r_flat_no r;
     rqv_urgency := r_urgency r; rqv_is_open := r_is_open r;
     rqv_created_at := r_created_at r; rqv_updated_at := r_updated_at r;
     rqv_role := u_role u;
     rqv_name := p_name ∘ snd <$> p; rqv_phone := p_phone ∘ snd <$> p;
     rqv_profile_block := p ≫= p_block ∘ snd;
     rqv_profile_flat_no := p ≫= p_flat_no ∘ snd |}.

(** [from requirements r join users u on u.id = r.owner_id
     left join profiles p on p.user_id = u.id] *)
Definition requirements_view (st : Store) : list RequirementView :=
  '(id, r) ← map_to_list (requirements st);
  '(uid, u) ← rows_with_key (users st) (r_owner_id r);
  p ← left_join (select_profiles_by_user_id st uid);
  [requirements_view_row id r u p].

Definition newer_requirement_first (a b : RequirementView) : Prop :=
  rqv_created_at b ≤ rqv_created_at a.
#[global] Instance newer_requirement_first_dec a b :
  Decision (newer_requirement_first a b).
Proof. unfold newer_requirement_first. apply _. Defined.

(** *** Writes *)

(** [.eq('id', requirementId).eq('owner_id', ownerId)] on [requirements] *)
Definition select_requirements_by_id_and_owner_id (st : Store)
    (requirementId : option uuid) (ownerId : uuid)
    : QueryResult (list (nat * Requirement)) :=
  match requirementId with
  | None => inl (invalid_uuid "undefined")
  | Some i => inr (filter (λ kv, r_owner_id kv.2 = ownerId)
                          (rows_with_key (requirements st) i))
  end.

(** [delete from requirements where id = ...] *)
Definition delete_requirement (id : option uuid)
    (st : Store) : Store * QueryResult unit :=
  match id with
  | None => (st, inl (invalid_uuid "undefined"))
  | Some i => (with_requirements (delete i) st, inr ())
  end.

Definition set_verified (b : bool) (p : Profile) : Profile :=
  {| p_user_id := p_user_id p; p_name := p_name p; p_phone := p_phone p;
     p_block := p_block p; p_flat_no := p_flat_no p; p_age := p_age p;
     p_verified := b;
     p_created_at := p_created_at p; p_updated_at := p_updated_at p |}.

(** [update profiles set verified = ... where user_id = ...] *)
Definition update_profile_verified (userId : uuid) (b : bool)
    (st : Store) : Store * QueryResult (list (nat * Profile)) :=
  let st' := with_profiles (fmap (λ p, if decide (p_user_id p = userId)
                                       then set_verified b p else p)) st in
  (st', inr (select_profiles_by_user_id st' userId)).

(** *** Responses of the handlers below *)

Inductive Payload :=
| PBody (b : Body)
| PUser (user : option UserView)
| PSync (user : option UserView)
| PRequirements (requirements : list RequirementView)
| PIncomplete (error : string) (basicProfile workerProfile : bool)
| PVerified (message : string) (id : uuid) (row : Profile)
| PInvalidRequest
| PTranslated (originalText translatedText fromLanguage toLanguage : string)
    (context : option string)
| PTranslatedBatch (originalTexts translatedTexts : list string)
    (fromLanguage toLanguage : string) (context : option string)
| PDetected (text detectedLanguage : string) (languageName : option Json).

Record Reply := { reply_status : Z; payload : Payload }.

Definition reply (p : Payload) : Reply := {| reply_status := 200; payload := p |}.
Definition reply_of (r : Response) : Reply :=
  {| reply_status := status r; payload := PBody (body r) |}.

(** [GET /me] *)
Definition get_me (authId : uuid) (st : Store) : Reply :=
  let user := data (maybeSingle (select_users_view_by_auth_id st authId)) in
  reply (PUser user).

(** [POST /auth/sync] *)
Definition post_auth_sync (now : timestamp) (authId : uuid) (st : Store)
    : Store * Reply :=
  match data (maybeSingle (select_users_view_by_auth_id st authId)) with
  | Some user => (st, reply (PSync (Some user)))
  | None =>
      match commit_single st (insert_user now authId "RESIDENT" st) with
      | (st', inl createError) =>
          (st', reply_of (fail_with 500 "Failed to create user account" createError))
      | (st', inr _) =>
          let freshUser := data (maybeSingle (select_users_view_by_auth_id st' authId)) in
          (st', reply (PSync freshUser))
      end
  end.

(** [GET /my-services] *)
Definition get_my_services (authId : uuid) (st : Store) : Response :=
  let services :=
    order_by_created_at_desc
      (filter (λ r, spv_auth_id r = authId) (service_posts_view st)) in
  json (BServices services).

(** [DELETE /requirements/:id] *)
Definition delete_requirements (req : Request unit) (st : Store) : Store * Response :=
  let authId := user_authId req in
  let requirementId := params req !! "id" in
  match data_of (single (select_users_by_auth_id st authId)) with
  | None => (st, fail 404 "User not found")
  | Some (userId, _) =>
      match query_then
              (select_requirements_by_id_and_owner_id st requirementId userId)
              single with
      | inl _ => (st, fail 404 "Requirement not found or not owned by you")
      | inr _ =>
          match delete_requirement requirementId st with
          | (st', inl e) => (st', fail_with 500 "Failed to delete requirement" e)
          | (st', inr _) => (st', json (BSuccess "Requirement deleted successfully"))
          end
      end
  end.

(** [GET /requirements] (public) *)
Definition get_requirements (st : Store) : Reply :=
  let requirements :=
    merge_sort newer_requirement_first
      (filter (λ r, rqv_is_open r = true) (requirements_view st)) in
  reply (PRequirements requirements).

(** [GET /worker-profile] *)
Definition get_worker_profile (authId : uuid) (st : Store) : Response :=
  match data (maybeSingle (select_users_by_auth_id st authId)) with
  | Some (userId, user) =>
      if decide (u_role user = "WORKER") then
        match data (maybeSingle (select_worker_profiles_by_user_id st userId)) with
        | None => fail 404 "Worker profile not found"
        | Some (id, workerProfile) => json (BWorkerProfile id workerProfile)
        end
      else fail 404 "Worker profile not found"
  | None => fail 404 "Worker profile not found"
  end.

(** [POST /verify-me]: the two conditions on the row of [users_view]. *)
Definition truthy_option {A} (truthy : A → bool) (x : option A) : bool :=
  match x with Some v => truthy v | None => false end.

Definition hasBasicProfile (user : UserView) : bool :=
  truthy_option truthy_string (uv_name user) &&
  truthy_option truthy_string (uv_phone user).

Definition hasWorkerProfile (user : UserView) : bool :=
  negb (bool_decide (uv_role user = "WORKER")) ||
  (truthy_option truthy_string (uv_worker_type user) &&
   truthy_option truthy_number (uv_charges user) &&
   bool_decide (is_Some (uv_experience_yrs user))).

Definition post_verify_me (authId : uuid) (st : Store) : Store * Reply :=
  match data (maybeSingle (select_users_view_by_auth_id st authId)) with
  | None => (st, reply_of (fail 404 "User not found"))
  | Some user =>
      if negb (hasBasicProfile user) || negb (hasWorkerProfile user) then
        (st, {| reply_status := 400;
                payload := PIncomplete
                  "Please complete your profile before requesting verification"
                  (negb (hasBasicProfile user))
                  (bool_decide (uv_role user = "WORKER") &&
                   negb (hasWorkerProfile user)) |})
      else
        match commit_single st (update_profile_verified (uv_id user) true st) with
        | (st', inl e) => (st', reply_of (fail_with 500 "Failed to verify user" e))
        | (st', inr (id, row)) =>
            (st', reply (PVerified "Profile verified successfully!" id row))
        end
  end.

(** *** Authentication middleware *)

(** The answer of the identity provider to [auth.getUser(token)]: a user, an
    error or no user, or an exception. *)
Inductive AuthResult :=
| AuthUser (id : uuid) (email : string)
| AuthInvalid
| AuthThrows.

Record AuthedUser := { authId : uuid; email : string }.

Fixpoint string_drop (n : nat) (s : string) : string :=
  match n, s with
  | O, _ => s
  | S n', String _ s' => string_drop n' s'
  | S _, EmptyString => EmptyString
  end.

(** [s.replace(pattern, replacement)] for a string pattern: the first
    occurrence only. *)
Fixpoint replace_first (pattern replacement s : string) : string :=
  if String.prefix pattern s
  then replacement +:+ string_drop (String.length pattern) s
  else match s with
       | EmptyString => EmptyString
       | String c s' => String c (replace_first pattern replacement s')
       end.

(** [requireAuth]: the response it sends ([inl]), or the user it attaches to
    the request before calling [next] ([inr]). *)
Definition requireAuth (getUser : string → AuthResult) (authorization : option string)
    : Response + AuthedUser :=
  match replace_first "Bearer " EmptyString <$> authorization with
  | None => inl (fail 401 "No token provided")
  | Some token =>
      if truthy_string token then
        match getUser token with
        | AuthUser id mail => inr {| authId := id; email := mail |}
        | AuthInvalid => inl (fail 401 "Invalid token")
        | AuthThrows => inl (fail 401 "Auth failed")
        end
      else inl (fail 401 "No token provided")
  end.

(** A route registered as [app.METHOD(path, requireAuth, handler)]. *)
Definition protected {B} (getUser : string → AuthResult)
    (handler : Request B → Store → Store * Response)
    (authorization : option string) (route_params : gmap string nat) (b : B)
    (st : Store) : Store * Response :=
  match requireAuth getUser authorization with
  | inl response => (st, response)
  | inr user =>
      handler {| user_authId := authId user; params := route_params; req_body := b |} st
  end.

(** *** Language detection and the translation endpoints *)

(** [key in SUPPORTED_LANGUAGES] *)
Definition in_SUPPORTED_LANGUAGES (key : string) : bool :=
  bool_decide (is_Some (SUPPORTED_LANGUAGES !! key) ∨ key ∈ Object_prototype_keys).

(** [SUPPORTED_LANGUAGES[key]] as [res.json] writes it: the own name of a
    code is a string; for the key [__proto__] the value is [Object.prototype],
    written as the empty object; an inherited function and [undefined] are left
    out of the response. *)
Definition languageName_json (key : string) : option Json :=
  match SUPPORTED_LANGUAGES !! key with
  | Some name => Some (JStr name)
  | None => if decide (key = "__proto__") then Some (JObj []) else None
  end.

Definition detection_prompt (text : string) : string :=
  "Detect the language of this text. Respond with only the language code from this list:
    en (English), hi (Hindi), ta (Tamil), te (Telugu), kn (Kannada), ml (Malayalam), 
    bn (Bengali), mr (Marathi), gu (Gujarati), pa (Punjabi)
    
    Text: " +:+ quoted text +:+ "
    
    Response format: Just the language code (e.g., " +:+ quoted "hi" +:+ ")".

(** [z.enum(['service', 'requirement', 'profile', 'general'])] *)
Definition parse_context (c : string) : option TranslationContext :=
  if decide (c = "service") then Some service
  else if decide (c = "requirement") then Some requirement
  else if decide (c = "profile") then Some profile
  else if decide (c = "general") then Some general
  else None.

Definition context_ok (c : option string) : Prop :=
  match c with Some s => is_Some (parse_context s) | None => True end.
#[global] Instance context_ok_dec c : Decision (context_ok c).
Proof. destruct c; simpl; apply _. Defined.

Record TranslateBody := {
  tb_text : string;
  tb_fromLanguage : string;
  tb_toLanguage : string;
  tb_context : option string }.
Definition TranslateBody_ok (b : TranslateBody) : Prop :=
  (1 ≤ String.length (tb_text b))%nat ∧ context_ok (tb_context b).
#[global] Instance TranslateBody_ok_dec b : Decision (TranslateBody_ok b).
Proof. unfold TranslateBody_ok. apply _. Defined.

Record TranslateBatchBody := {
  bb_texts : list string;
  bb_fromLanguage : string;
  bb_toLanguage : string;
  bb_context : option string }.
Definition TranslateBatchBody_ok (b : TranslateBatchBody) : Prop :=
  Forall (λ t, (1 ≤ String.length t)%nat) (bb_texts b) ∧ context_ok (bb_context b).
#[global] Instance TranslateBatchBody_ok_dec b : Decision (TranslateBatchBody_ok b).
Proof. unfold TranslateBatchBody_ok. apply _. Defined.

Section Endpoints.
Variable model : LanguageModel.
(** [String.prototype.toLowerCase] *)
Variable toLowerCase : string → string.

Definition detectLanguage (text : string) : Async model string :=
  try_catch model
    (response_text ← model_generateContent model (detection_prompt text);
     let detectedLang := toLowerCase (trim response_text) in
     if in_SUPPORTED_LANGUAGES detectedLang then mret detectedLang
     else mret "en")
    (λ error, mret "en").

Definition unsupported_language : Reply :=
  reply_of (fail 400 "Unsupported language code").
Definition invalid_request : Reply :=
  {| reply_status := 400; payload := PInvalidRequest |}.

(** [POST /translate] *)
Definition post_translate (b : TranslateBody) : Async model Reply :=
  try_catch model
    (if decide (TranslateBody_ok b) then
       let fromLanguage := tb_fromLanguage b in
       let toLanguage := tb_toLanguage b in
       if negb (in_SUPPORTED_LANGUAGES fromLanguage) ||
          negb (in_SUPPORTED_LANGUAGES toLanguage)
       then mret unsupported_language
       else
         translatedText ← translateText model
           {| text := tb_text b; fromLanguage := fromLanguage;
              toLanguage := toLanguage;
              context_ := tb_context b ≫= parse_context |};
         mret (reply (PTranslated (tb_text b) translatedText fromLanguage
                        toLanguage (tb_context b)))
     else mret invalid_request)
    (λ error, mret (reply_of (fail 500 "Translation failed"))).

(** [POST /translate-batch] *)
Definition post_translate_batch (b : TranslateBatchBody) : Async model Reply :=
  try_catch model
    (if decide (TranslateBatchBody_ok b) then
       let fromLanguage := bb_fromLanguage b in
       let toLanguage := bb_toLanguage b in
       if negb (in_SUPPORTED_LANGUAGES fromLanguage) ||
          negb (in_SUPPORTED_LANGUAGES toLanguage)
       then mret unsupported_language
       else
         translatedTexts ← translateBatch model (bb_texts b) fromLanguage toLanguage
                             (bb_context b ≫= parse_context);
         mret (reply (PTranslatedBatch (bb_texts b) translatedTexts fromLanguage
                        toLanguage (bb_context b)))
     else mret invalid_request)
    (λ error, mret (reply_of (fail 500 "Batch translation failed"))).

(** [POST /detect-language] *)
Definition post_detect_language (text : string) : Async model Reply :=
  try_catch model
    (if decide (1 ≤ String.length text)%nat then
       detectedLanguage ← detectLanguage text;
       mret (reply (PDetected text detectedLanguage
                      (languageName_json detectedLanguage)))
     else mret invalid_request)
    (λ error, mret (reply_of (fail 500 "Language detection failed"))).
End Endpoints.

(** [toLowerCase] on the ASCII letters. *)
Definition ascii_lower (c : Ascii.ascii) : Ascii.ascii :=
  let n := Ascii.nat_of_ascii c in
  if ((65 <=? n) && (n <=? 90))%nat then Ascii.ascii_of_nat (n + 32) else c.
Fixpoint ascii_toLowerCase (s : string) : string :=
  match s with
  | EmptyString => EmptyString
  | String c s' => String (ascii_lower c) (ascii_toLowerCase s')
  end.

(** The ids of the service posts that [GET /services] lists, in its order. *)
Definition listed_services (st : Store) : list uuid :=
  match body (get_services st) with
  | BServices services => spv_id <$> services
  | _ => []
  end.

(** The identity that owns a service post: the one of the user of the
    worker profile that the post references. *)
Definition post_owner (st : Store) (sp : ServicePost) : option uuid :=
  wp ← worker_profiles st !! sp_worker_id sp;
  u ← users st !! wp_user_id wp;
  Some (u_auth_id u).


(** ** A small store

    The worker Asha (identity 100) has a profile, a worker profile and three
    service posts, one of them inactive; the resident Ravi (identity 200) has
    a profile; nobody has signed in yet with the identity 300. *)

Definition asha : User :=
  {| u_auth_id := 100; u_role := "WORKER"; u_created_at := 1; u_updated_at := 1 |}.
Definition ravi : User :=
  {| u_auth_id := 200; u_role := "RESIDENT"; u_created_at := 2; u_updated_at := 2 |}.

Definition asha_profile : Profile :=
  {| p_user_id := 0; p_name := "Asha"; p_phone := "9876543210";
     p_block := Some "J"; p_flat_no := Some "103"; p_age := Some 34;
     p_verified := false; p_created_at := 3; p_updated_at := 3 |}.
Definition ravi_profile : Profile :=
  {| p_user_id := 1; p_name := "Ravi"; p_phone := "9123456780";
     p_block := None; p_flat_no := None; p_age := None;
     p_verified := true; p_created_at := 4; p_updated_at := 4 |}.

Definition asha_worker_profile : WorkerProfile :=
  {| wp_user_id := 0; wp_worker_type := "COOK"; wp_cuisine := Some "SOUTH";
     wp_experience_yrs := 6; wp_charges := 4000; wp_long_term_offer := None;
     wp_rating := 0; wp_rating_count := 0; wp_time_slots := None;
     wp_created_at := 5; wp_updated_at := 5 |}.

Definition asha_post (title : string) (is_active : bool) (created_at : Z) : ServicePost :=
  {| sp_worker_id := 0; sp_title := title; sp_cuisine := Some "SOUTH";
     sp_price := 3500; sp_service_area := Some "Block J";
     sp_available_timing := None; sp_description := None;
     sp_time_slots := None; sp_is_active := is_active;
     sp_created_at := created_at; sp_updated_at := created_at |}.

Definition empty_store : Store :=
  {| users := ∅; profiles := ∅; worker_profiles := ∅; service_posts := ∅;
     requirements := ∅ |}.


(** The store before Asha completed her worker profile. *)
Definition store_before_worker_profile : Store :=
  {| users := {[ 0%nat := asha; 1%nat := ravi ]};
     profiles := {[ 0%nat := asha_profile; 1%nat := ravi_profile ]};
     worker_profiles := ∅; service_posts := ∅; requirements := ∅ |}.

Definition sample_store : Store :=
  {| users := {[ 0%nat := asha; 1%nat := ravi ]};
     profiles := {[ 0%nat := asha_profile; 1%nat := ravi_profile ]};
     worker_profiles := {[ 0%nat := asha_worker_profile ]};
     service_posts := {[ 0%nat := asha_post "Daily meals" true 6;
                         1%nat := asha_post "Tiffin" false 7;
                         2%nat := asha_post "Party catering" true 8 ]};
     requirements := ∅ |}.

Definition request {B} (authId : nat) (b : B) : Request B :=
  {| user_authId := authId; params := ∅; req_body := b |}.

Definition request_on {B} (authId id : nat) (b : B) : Request B :=
  {| user_authId := authId; params := route_id_params id; req_body := b |}.

Definition sample_profile_body (name phone : string) : ProfileBody :=
  {| name := name; phone := phone; block := None; flatNo := Some "12"; age := None |}.

Definition sample_service_body : ServicePostBody :=
  {| title := "Breakfast"; cuisine := Some "NORTH"; price := 1500;
     serviceArea := None; availableTiming := Some "7-9 am"; description := None;
     timeSlots := None |}.





Definition sample_requirement_body : RequirementPostBody :=
  {| needType := "COOK"; details := Some "Dinner for four";
     preferredTiming := None; preferredPrice := Some 0;
     rb_block := None; rb_flatNo := None; urgency := None |}.

(** Ravi's requirement, and the small store with it. *)
Definition ravi_requirement : Requirement :=
  {| r_owner_id := 1; r_need_type := "COOK"; r_details := Some "Dinner for four";
     r_preferred_timing := None; r_preferred_price := None;
     r_block := Some "C"; r_flat_no := None; r_urgency := "HIGH";
     r_is_open := true; r_created_at := 9; r_updated_at := 9 |}.

Definition store_with_requirement : Store :=
  {| users := users sample_store; profiles := profiles sample_store;
     worker_profiles := worker_profiles sample_store;
     service_posts := service_posts sample_store;
     requirements := {[ 0%nat := ravi_requirement ]} |}.

(** A translation service that answers its first three calls and is out of
    quota afterwards. *)
Definition quota_model : LanguageModel :=
  {| model_state := nat;
     generateContent := λ prompt n,
       (if (n <? 3)%nat then inr " 'namaste' " else inl "429 Too Many Requests", S n) |}.

(** * Properties *)

Ltac by_computation := apply (bool_decide_unpack _); vm_compute; exact I.

(** ** Queries on a table *)

Section rows_where.
Context {A : Type} (P : A → Prop) `{!∀ x, Decision (P x)}.
Implicit Types m : gmap nat A.

Lemma elem_of_rows_where m i x :
  (i, x) ∈ rows_where P m ↔ m !! i = Some x ∧ P x.
Proof.
  unfold rows_where. rewrite elem_of_map_to_list, map_lookup_filter_Some. done.
Qed.

Lemma rows_where_nil m :
  rows_where P m = [] ↔ ∀ i x, m !! i = Some x → ¬ P x.
Proof.
  unfold rows_where. rewrite map_to_list_empty_iff, map_empty_filter.
  unfold map_Forall. done.
Qed.

Lemma rows_where_singleton m i x :
  m !! i = Some x → P x → (∀ j y, m !! j = Some y → P y → j = i) →
  rows_where P m = [(i, x)].
Proof.
  intros Hi HP Huniq. unfold rows_where.
  replace (filter (λ kv, P kv.2) m) with ({[i := x]} : gmap nat A).
  { apply map_to_list_singleton. }
  apply map_eq. intros j. destruct (decide (j = i)) as [->|Hne].
  - rewrite lookup_singleton_eq. symmetry. by apply map_lookup_filter_Some.
  - rewrite lookup_singleton_ne by done. symmetry.
    apply map_lookup_filter_None. right. intros y Hj HPy.
    apply Hne. by apply (Huniq j y).
Qed.

Lemma rows_where_singleton_inv m i x :
  rows_where P m = [(i, x)] →
  m !! i = Some x ∧ P x ∧ ∀ j y, m !! j = Some y → P y → j = i.
Proof.
  intros Hrows.
  assert (Hin : ∀ j y, m !! j = Some y ∧ P y ↔ (j, y) = (i, x)).
  { intros j y. rewrite <-elem_of_rows_where, Hrows. apply list_elem_of_singleton. }
  destruct (proj2 (Hin i x) eq_refl) as [Hi HP]. split_and!; [done..|].
  intros j y Hj HPy. by pose proof (proj1 (Hin j y) (conj Hj HPy)) as [= -> _].
Qed.
End rows_where.

Lemma unique_on_NoDup {A B} (column : A → B) (m : gmap nat A) :
  NoDup (column ∘ snd <$> map_to_list m) → unique_on column m.
Proof.
  intros Hnd i j x y Hi Hj Heq.
  apply elem_of_map_to_list, list_elem_of_lookup in Hi as [a Ha].
  apply elem_of_map_to_list, list_elem_of_lookup in Hj as [b Hb].
  assert (a = b) as ->.
  { apply (NoDup_lookup _ a b (column x) Hnd);
      rewrite list_lookup_fmap; [rewrite Ha | rewrite Hb]; simpl; congruence. }
  congruence.
Qed.

Lemma rows_where_unique {A B} `{EqDecision B} (column : A → B) (m : gmap nat A) i x :
  unique_on column m → m !! i = Some x →
  rows_where (λ y, column y = column x) m = [(i, x)].
Proof.
  intros Huniq Hi. apply rows_where_singleton; [done..|].
  intros j y Hj Hy. by apply (Huniq j i y x).
Qed.

Lemma maybeSingle_Some {A} (rows : list A) (x : A) :
  maybeSingle rows = inr (Some x) → rows = [x].
Proof. destruct rows as [|? [|? ?]]; simpl; congruence. Qed.

Lemma maybeSingle_None {A} (rows : list A) :
  maybeSingle rows = inr None → rows = [].
Proof. destruct rows as [|? [|? ?]]; simpl; congruence. Qed.

Lemma data_maybeSingle_Some {A} (rows : list A) (x : A) :
  data (maybeSingle rows) = Some x → rows = [x].
Proof. destruct rows as [|? [|? ?]]; simpl; congruence. Qed.

Lemma new_id_fresh {A} (m : gmap nat A) : m !! new_id m = None.
Proof. apply not_elem_of_dom. unfold new_id. apply is_fresh. Qed.

(** ** The writes preserve the constraints of the schema *)

Section constraints.
Context {A : Type}.
Implicit Types m : gmap nat A.

Lemma unique_on_insert {B} (column : A → B) m i x :
  unique_on column m →
  (∀ j y, m !! j = Some y → j ≠ i → column y ≠ column x) →
  unique_on column (<[i := x]> m).
Proof.
  intros Huniq Hx a b y z Ha Hb Heq.
  destruct (decide (a = i)) as [->|Hai], (decide (b = i)) as [->|Hbi]; [done|..].
  - rewrite lookup_insert_eq in Ha. rewrite lookup_insert_ne in Hb by done.
    injection Ha as <-. by destruct (Hx b z Hb Hbi).
  - rewrite lookup_insert_eq in Hb. rewrite lookup_insert_ne in Ha by done.
    injection Hb as <-. by destruct (Hx a y Ha Hai).
  - rewrite lookup_insert_ne in Ha, Hb by done. by apply (Huniq a b y z).
Qed.


Lemma unique_on_alter {B} (column : A → B) (f : A → A) m i :
  (∀ x, column (f x) = column x) → unique_on column m →
  unique_on column (alter f i m).
Proof.
  intros Hf Huniq a b y z Ha Hb.
  apply lookup_alter_Some in Ha as [[-> (y0 & Ha & ->)]|[_ Ha]];
    apply lookup_alter_Some in Hb as [[-> (z0 & Hb & ->)]|[_ Hb]];
    rewrite ?Hf; by eauto.
Qed.

Lemma unique_on_delete {B} (column : A → B) m i :
  unique_on column m → unique_on column (delete i m).
Proof.
  intros Huniq a b y z Ha%lookup_delete_Some Hb%lookup_delete_Some.
  apply Huniq; [apply Ha|apply Hb].
Qed.

Lemma references_insert {B} (column : A → nat) m (target : gmap nat B) i x :
  references column m target → is_Some (target !! column x) →
  references column (<[i := x]> m) target.
Proof. intros Hm Hx. by apply map_Forall_insert_2. Qed.




Lemma references_target {B} (column : A → nat) m (target target' : gmap nat B) :
  (∀ k, is_Some (target !! k) → is_Some (target' !! k)) →
  references column m target → references column m target'.
Proof. intros Hsub Hm a y Ha. by apply Hsub, (Hm a). Qed.
End constraints.

Lemma is_Some_insert_target {B} (m : gmap nat B) (i k : nat) (x : B) :
  is_Some (m !! k) → is_Some (<[i := x]> m !! k).
Proof.
  intros Hk. destruct (decide (i = k)) as [->|Hne].
  - rewrite lookup_insert_eq. by eexists.
  - by rewrite lookup_insert_ne.
Qed.


Lemma rows_where_nil_ne {A B} `{EqDecision B} (column : A → B) (m : gmap nat A) (v : B) :
  rows_where (λ y, column y = v) m = [] →
  ∀ j y, m !! j = Some y → column y ≠ v.
Proof. intros Hnone j y Hj. by apply (proj1 (rows_where_nil _ m) Hnone j y). Qed.

Lemma insert_user_schema_ok now authId r st :
  schema_ok st → schema_ok (insert_user now authId r st).1.
Proof.
  intros Hst. unfold insert_user. repeat case_decide; simpl; try done.
  destruct Hst. constructor; simpl; try done.
  - apply unique_on_insert; [done|]. intros j y Hj _. simpl.
    eapply (rows_where_nil_ne u_auth_id (users st) authId); eassumption.
  - eapply references_target; [|done]. intros k. apply is_Some_insert_target.
  - eapply references_target; [|done]. intros k. apply is_Some_insert_target.
  - eapply references_target; [|done]. intros k. apply is_Some_insert_target.
Qed.











Lemma empty_store_schema_ok : schema_ok empty_store.
Proof. by constructor. Qed.



(** ** Role selection *)

Lemma set_role_rows authId role (m : gmap nat User) i u :
  m !! i = Some u → u_auth_id u = authId → unique_on u_auth_id m →
  (λ v, if decide (u_auth_id v = authId) then set_role role v else v) <$> m
  = <[i := set_role role u]> m.
Proof.
  intros Hi Hu Huniq. apply map_eq. intros j. rewrite lookup_fmap.
  destruct (decide (i = j)) as [<-|Hne].
  - rewrite lookup_insert_eq, Hi. simpl. by rewrite decide_True.
  - rewrite lookup_insert_ne by done. destruct (m !! j) as [v|] eqn:Hj; [|done].
    simpl. rewrite decide_False; [done|]. intros Hv. apply Hne.
    apply (Huniq i j u v); congruence.
Qed.

(** C5. [POST /select-role] with a valid role: when the subject has no row in
    [users], exactly one row is created, with the chosen role; when the
    subject has a row, the role of that row is overwritten in place and no
    row is added. In both cases the response carries the id of that row and
    the role, and the subject has exactly that one row afterwards. *)
Theorem select_role_creates_or_overwrites (now : Z) (req : Request RoleSelectionBody)
    (st : Store) :
  let authId := user_authId req in
  let r := role (req_body req) in
  RoleSelectionBody_ok (req_body req) →
  ((∀ i u, users st !! i = Some u → u_auth_id u ≠ authId) →
   ∃ userId row st',
     post_select_role now req st = (st', json (BRoleSelected userId r)) ∧
     users st !! userId = None ∧
     st' = with_users (insert userId row) st ∧
     u_auth_id row = authId ∧ u_role row = r ∧
     select_users_by_auth_id st' authId = [(userId, row)]) ∧
  (∀ userId u,
     users st !! userId = Some u → u_auth_id u = authId →
     unique_on u_auth_id (users st) →
     ∃ st',
       post_select_role now req st = (st', json (BRoleSelected userId r)) ∧
       st' = with_users (insert userId (set_role r u)) st ∧
       dom (users st') = dom (users st) ∧
       select_users_by_auth_id st' authId = [(userId, set_role r u)]).
Proof.
  intros authId r Hok. split.
  - intros Hnone.
    assert (Hrows : select_users_by_auth_id st authId = []).
    { apply rows_where_nil. intros i u Hi. by apply Hnone in Hi. }
    pose proof (new_id_fresh (users st)) as Hfresh.
    eexists (new_id (users st)), _, _.
    unfold post_select_role. rewrite decide_True by done.
    fold authId r. rewrite Hrows. simpl.
    unfold insert_user. rewrite decide_True by done.
    rewrite decide_True by done. simpl.
    split_and!; try done.
    unfold select_users_by_auth_id. simpl.
    apply rows_where_singleton; [by rewrite lookup_insert_eq|done|].
    intros j y Hj Hy. destruct (decide (new_id (users st) = j)) as [|Hne]; [done|].
    rewrite lookup_insert_ne in Hj by done. by apply Hnone in Hj.
  - intros userId u Hu Hauth Huniq.
    assert (Hrows : select_users_by_auth_id st authId = [(userId, u)]).
    { rewrite <-Hauth. by apply rows_where_unique. }
    assert (Hrows' : select_users_by_auth_id
                       (with_users (insert userId (set_role r u)) st) authId
                     = [(userId, set_role r u)]).
    { unfold select_users_by_auth_id. simpl.
      apply rows_where_singleton; [by rewrite lookup_insert_eq|done|].
      intros j y Hj Hy. destruct (decide (userId = j)) as [|Hne]; [done|].
      rewrite lookup_insert_ne in Hj by done.
      apply (Huniq j userId y u); congruence. }
    eexists. unfold post_select_role. rewrite decide_True by done.
    fold authId r. rewrite Hrows. simpl.
    unfold update_user_role. rewrite Hrows.
    rewrite decide_False by done. rewrite decide_True by done.
    unfold with_users at 1 2. simpl.
    rewrite (set_role_rows authId r (users st) userId u) by done.
    fold (with_users (insert userId (set_role r u)) st).
    rewrite Hrows'. simpl. split_and!; try done.
    apply set_eq. intros j. rewrite !elem_of_dom. simpl.
    destruct (decide (userId = j)) as [<-|Hne].
    + rewrite lookup_insert_eq, Hu. by split; eauto.
    + by rewrite lookup_insert_ne.
Qed.

(** ** Profile upsert *)

Lemma commit_single_inr {A} (st st1 st' : Store) (r : QueryResult (list A)) (x : A) :
  commit_single st (st1, r) = (st', inr x) → st' = st1 ∧ r = inr [x].
Proof.
  destruct r as [e|[|y [|z rows]]]; simpl; intros [= <- <-] || intros [=]; done.
Qed.


Lemma post_profile_respond_status (res : QueryResult (nat * Profile)) :
  status (post_profile_respond res) = 200 →
  ∃ id row, res = inr (id, row).
Proof.
  destruct res as [e|[id row]]; [|by eauto].
  unfold post_profile_respond. repeat case_match; simpl; lia.
Qed.

(** A branch of a handler that answers with another status than 200. *)
Ltac other_status Hrun Hstatus :=
  injection Hrun as <- <-; simpl in Hstatus; lia.

(** C1. A successful [POST /profile] comes from a caller whose row in
    [users] has a role; whether the profile was inserted (the user had none)
    or updated (the user had one), the user has exactly one profile
    afterwards, it is the one of the response, it carries the name of the
    request and its [verified] flag is true. *)
Theorem post_profile_sets_verified (now : Z) (req : Request ProfileBody)
    (st st' : Store) (resp : Response) :
  post_profile now req st = (st', resp) →
  status resp = 200 →
  ∃ userId u id row,
    users st !! userId = Some u ∧ u_auth_id u = user_authId req ∧
    u_role u ≠ EmptyString ∧
    resp = json (BProfile id row) ∧
    (select_profiles_by_user_id st userId = [] ∧ profiles st !! id = None ∨
     ∃ old, select_profiles_by_user_id st userId = [(id, old)]) ∧
    select_profiles_by_user_id st' userId = [(id, row)] ∧
    profiles st' !! id = Some row ∧
    p_user_id row = userId ∧
    p_name row = name (req_body req) ∧
    p_verified row = true.
Proof.
  intros Hrun Hstatus. unfold post_profile in Hrun.
  destruct (decide (ProfileBody_ok (req_body req))) as [Hok|];
    [|other_status Hrun Hstatus].
  destruct (maybeSingle (select_users_by_auth_id st (user_authId req)))
    as [e|[[userId u]|]] eqn:Husers;
    [other_status Hrun Hstatus| |other_status Hrun Hstatus].
  apply maybeSingle_Some, rows_where_singleton_inv in Husers as (Hu & Hauth & _).
  destruct (truthy_string (u_role u)) eqn:Hrole; [|other_status Hrun Hstatus].
  destruct (post_profile_write _ _ _ _ _) as [st1 res] eqn:Hwrite.
  injection Hrun as <- <-.
  apply post_profile_respond_status in Hstatus as (id & row & ->).
  assert (Hrole' : u_role u ≠ EmptyString) by (by destruct (u_role u)).
  cut ((select_profiles_by_user_id st userId = [] ∧ profiles st !! id = None ∨
        ∃ old, select_profiles_by_user_id st userId = [(id, old)]) ∧
       select_profiles_by_user_id st1 userId = [(id, row)] ∧
       p_name row = name (req_body req) ∧ p_verified row = true).
  { intros (Hbranch & Hrows & Hname & Hverified).
    destruct (rows_where_singleton_inv _ _ _ _ Hrows) as (Hrow & Huser & _).
    by exists userId, u, id, row. }
  unfold post_profile_write in Hwrite.
  destruct (data (maybeSingle (select_profiles_by_user_id st userId)))
    as [[pid old]|] eqn:Hexisting.
  - (* update *)
    apply data_maybeSingle_Some in Hexisting.
    unfold update_profile in Hwrite.
    destruct (int_columns _) in Hwrite; [by simpl in Hwrite|].
    rewrite Hexisting in Hwrite.
    rewrite decide_False in Hwrite by done.
    destruct (decide _) as [_|] in Hwrite; [|by simpl in Hwrite].
    apply commit_single_inr in Hwrite as [-> [= Hrows]].
    destruct (rows_where_singleton_inv _ _ _ _ Hexisting) as (Hold & Holduser & Honly).
    destruct (rows_where_singleton_inv _ _ _ _ Hrows) as (Hrow & Huser & _).
    simpl in Hrow. rewrite lookup_fmap in Hrow.
    destruct (profiles st !! id) as [old'|] eqn:Hold'; [|done].
    injection Hrow as <-.
    assert (p_user_id old' = userId) as Holduser'
      by (by destruct (decide (p_user_id old' = userId))).
    assert (id = pid) as -> by (by apply (Honly id old')).
    rewrite decide_True in Hrows |- * by done.
    split_and!; [right; by exists old|done..].
  - (* insert *)
    unfold insert_profile in Hwrite.
    destruct (int_columns _) in Hwrite; [by simpl in Hwrite|].
    rewrite Hu in Hwrite.
    destruct (decide _) as [Hnone|] in Hwrite; [|by simpl in Hwrite].
    destruct (decide _) as [_|] in Hwrite; [|by simpl in Hwrite].
    apply commit_single_inr in Hwrite as [-> [= <- <-]].
    pose proof (new_id_fresh (profiles st)) as Hfresh.
    split_and!; [by left| |done..].
    unfold select_profiles_by_user_id. simpl.
    apply rows_where_singleton; [by rewrite lookup_insert_eq|done|].
    intros j q Hj Hq. destruct (decide (new_id (profiles st) = j)) as [|Hne]; [done|].
    rewrite lookup_insert_ne in Hj by done.
    by destruct (proj1 (rows_where_nil _ _) Hnone j q Hj).
Qed.

(** The two uniqueness violations that the store raises on [profiles], and
    how they are answered. *)
Lemma post_profile_respond_phone_key :
  post_profile_respond (inl (unique_violation "profiles_phone_key"))
  = fail 409 "Phone number already in use".
Proof. reflexivity. Qed.

Lemma post_profile_respond_user_id_key :
  post_profile_respond (inl (unique_violation "profiles_user_id_key"))
  = fail 409 "Profile already exists".
Proof. reflexivity. Qed.

(** ** Service posts and requirements *)


Lemma select_users_of_caller (st : Store) (userId : nat) (u : User) :
  unique_on u_auth_id (users st) → users st !! userId = Some u →
  select_users_by_auth_id st (u_auth_id u) = [(userId, u)].
Proof. intros. by apply rows_where_unique. Qed.

Lemma select_users_no_row (st : Store) (authId : nat) :
  (∀ i u, users st !! i = Some u → u_auth_id u ≠ authId) →
  select_users_by_auth_id st authId = [].
Proof. intros Hnone. apply rows_where_nil. intros i u Hi. by apply Hnone in Hi. Qed.






Section post_services.
Context (now : Z) (req : Request ServicePostBody) (st : Store).
Context (Hok : ServicePostBody_ok (req_body req)).
Context (Husers : unique_on u_auth_id (users st)).

Lemma post_services_not_worker userId u :
  users st !! userId = Some u → u_auth_id u = user_authId req →
  u_role u ≠ "WORKER" →
  post_services now req st = (st, fail 403 "Only workers can post services").
Proof.
  intros Hu Hauth Hrole. unfold post_services. rewrite decide_True by done.
  rewrite <-Hauth, (select_users_of_caller st userId u) by done. simpl.
  by rewrite decide_False.
Qed.





End post_services.





(** C9. [POST /requirements] by a caller whose role is RESIDENT, with a valid
    body whose [preferredPrice] is 0: the schema accepts the price 0, the
    request succeeds, and the inserted requirement has no preferred price
    ([null]), not the price 0. *)
Theorem post_requirements_zero_price_is_null (now : Z)
    (req : Request RequirementPostBody) (st : Store) (userId : nat) (u : User) :
  RequirementPostBody_ok (req_body req) →
  preferredPrice (req_body req) = Some 0 →
  unique_on u_auth_id (users st) →
  users st !! userId = Some u → u_auth_id u = user_authId req →
  u_role u = "RESIDENT" →
  optional_min 0 (preferredPrice (req_body req)) ∧
  ∃ id row,
    post_requirements now req st
    = (with_requirements (insert id row) st, json (BRequirement id row)) ∧
    requirements st !! id = None ∧
    r_owner_id row = userId ∧
    r_preferred_price row = None.
Proof.
  intros Hok Hprice Husers Hu Hauth Hrole. split; [apply Hok|].
  pose proof (new_id_fresh (requirements st)) as Hfresh.
  eexists (new_id (requirements st)), _.
  unfold post_requirements. rewrite decide_True by done.
  rewrite <-Hauth, (select_users_of_caller st userId u) by done. simpl.
  rewrite decide_True by done.
  unfold insert_requirement. simpl. rewrite Hprice. simpl.
  destruct Hok as (Hneed & _ & Hurgency).
  rewrite decide_True by done.
  rewrite decide_True.
  2:{ destruct (urgency (req_body req)); simpl in *; [done|].
      by apply (bool_decide_unpack _). }
  rewrite Hu. simpl. by split_and!.
Qed.

(** ** The view of the service posts *)

Lemma elem_of_rows_with_key {A} (m : gmap nat A) (k i : nat) (x : A) :
  (i, x) ∈ rows_with_key m k ↔ i = k ∧ m !! k = Some x.
Proof.
  unfold rows_with_key. destruct (m !! k) as [y|].
  - rewrite list_elem_of_singleton. split.
    + by intros [= -> ->].
    + by intros [-> [= ->]].
  - rewrite elem_of_nil. split; [done|]. by intros [_ ?].
Qed.

(** Every row of the view is the row of a service post, joined with the
    worker profile it references and with the user of that worker profile. *)
Lemma elem_of_service_posts_view (st : Store) (r : ServicePostView) :
  r ∈ service_posts_view st ↔
  ∃ id sp wp u p,
    service_posts st !! id = Some sp ∧
    worker_profiles st !! sp_worker_id sp = Some wp ∧
    users st !! wp_user_id wp = Some u ∧
    p ∈ left_join (select_profiles_by_user_id st (wp_user_id wp)) ∧
    r = service_posts_view_row id sp wp u p.
Proof.
  unfold service_posts_view. rewrite list_elem_of_bind. split.
  - intros ([id sp] & Hr & Hsp). apply elem_of_map_to_list in Hsp.
    apply list_elem_of_bind in Hr as ([w wp] & Hr & Hwp).
    apply elem_of_rows_with_key in Hwp as [-> Hwp].
    apply list_elem_of_bind in Hr as ([uid u] & Hr & Hu).
    apply elem_of_rows_with_key in Hu as [-> Hu].
    apply list_elem_of_bind in Hr as (p & Hr & Hp).
    apply list_elem_of_singleton in Hr. by exists id, sp, wp, u, p.
  - intros (id & sp & wp & u & p & Hsp & Hwp & Hu & Hp & ->).
    exists (id, sp). split; [|by apply elem_of_map_to_list].
    apply list_elem_of_bind. exists (sp_worker_id sp, wp).
    split; [|by apply elem_of_rows_with_key].
    apply list_elem_of_bind. exists (wp_user_id wp, u).
    split; [|by apply elem_of_rows_with_key].
    apply list_elem_of_bind. exists p. split; [|done].
    by apply list_elem_of_singleton.
Qed.

Lemma alter_lookup_insert {A} (f : A → A) (m : gmap nat A) (i : nat) (x : A) :
  m !! i = Some x → alter f i m = <[i := f x]> m.
Proof.
  intros Hi. apply map_eq. intros j. destruct (decide (i = j)) as [<-|Hne].
  - by rewrite lookup_alter_eq, lookup_insert_eq, Hi.
  - by rewrite lookup_alter_ne, lookup_insert_ne.
Qed.

(** C10. A successful [PATCH /services/:id/toggle] is the request of the
    owner of the post [:id]; it replaces that post by a post whose
    [is_active] is negated and whose other columns (worker, title, cuisine,
    price, service area, timing, description, time slots, creation and
    update times) are the same; every other post and every other table is
    unchanged, and the response is the new row. *)
Theorem toggle_changes_only_is_active (req : Request unit) (st st' : Store)
    (resp : Response) :
  patch_services_toggle req st = (st', resp) →
  status resp = 200 →
  ∃ id sp sp' wp u,
    params req !! "id" = Some id ∧
    service_posts st !! id = Some sp ∧
    worker_profiles st !! sp_worker_id sp = Some wp ∧
    users st !! wp_user_id wp = Some u ∧
    u_auth_id u = user_authId req ∧
    resp = json (BServicePost id sp') ∧
    service_posts st' = <[id := sp']> (service_posts st) ∧
    (∀ j, j ≠ id → service_posts st' !! j = service_posts st !! j) ∧
    sp_is_active sp' = negb (sp_is_active sp) ∧
    (sp_worker_id sp' = sp_worker_id sp ∧ sp_title sp' = sp_title sp ∧
     sp_cuisine sp' = sp_cuisine sp ∧ sp_price sp' = sp_price sp ∧
     sp_service_area sp' = sp_service_area sp ∧
     sp_available_timing sp' = sp_available_timing sp ∧
     sp_description sp' = sp_description sp ∧
     sp_time_slots sp' = sp_time_slots sp ∧
     sp_created_at sp' = sp_created_at sp ∧
     sp_updated_at sp' = sp_updated_at sp) ∧
    (users st' = users st ∧ profiles st' = profiles st ∧
     worker_profiles st' = worker_profiles st ∧
     requirements st' = requirements st).
Proof.
  intros Hrun Hstatus. unfold patch_services_toggle in Hrun.
  destruct (params req !! "id") as [id|] eqn:Hid; simpl in Hrun;
    [|other_status Hrun Hstatus].
  destruct (data (maybeSingle _)) as [service|] eqn:Hservice in Hrun;
    [|other_status Hrun Hstatus].
  apply data_maybeSingle_Some in Hservice.
  assert (Hin : service ∈ filter (λ r, spv_id r = id ∧ spv_auth_id r = user_authId req)
                                 (service_posts_view st))
    by (rewrite Hservice; apply list_elem_of_singleton; done).
  apply list_elem_of_filter in Hin as [[Hspv_id Hspv_auth] Hin].
  apply elem_of_service_posts_view in Hin as (i & sp & wp & u & p & Hsp & Hwp & Hu & _ & ->).
  simpl in Hspv_id, Hspv_auth, Hrun. subst i.
  unfold update_service_post_is_active, rows_with_id, rows_with_key in Hrun.
  simpl in Hrun. rewrite lookup_alter_eq, Hsp in Hrun. simpl in Hrun.
  injection Hrun as <- <-.
  exists id, sp, (set_is_active (negb (sp_is_active sp)) sp), wp, u.
  split_and!; try done.
  - simpl. by apply alter_lookup_insert.
  - intros j Hj. simpl. by rewrite lookup_alter_ne.
Qed.

(** C2. [DELETE /services/:id] reads the path parameter [serviceId], which
    the route [/services/:id] never binds: whatever the post and its owner,
    the lookup fails, the answer is 404 and nothing is deleted. *)
Theorem delete_services_always_not_found (authId id : nat) (st : Store) :
  delete_services {| user_authId := authId; params := route_id_params id;
                     req_body := () |} st
  = (st, fail 404 "Service not found or not owned by you").
Proof. reflexivity. Qed.

(** ** The public list of services *)

#[global] Instance newer_first_total : Total newer_first.
Proof. intros a b. unfold newer_first. lia. Qed.

#[global] Instance newer_first_trans : Transitive newer_first.
Proof. intros a b c. unfold newer_first. lia. Qed.

Lemma left_join_nonempty {A} (rows : list A) : ∃ p, p ∈ left_join rows.
Proof.
  destruct rows as [|x rows]; simpl.
  - exists None. by apply list_elem_of_singleton.
  - exists (Some x). by left.
Qed.

Lemma left_join_unique {A B} `{EqDecision B} (column : A → B) (m : gmap nat A) (v : B) :
  unique_on column m →
  ∃ p, left_join (rows_where (λ y, column y = v) m) = [p].
Proof.
  intros Huniq. destruct (rows_where _ m) as [|[i x] rows] eqn:Hrows.
  - by exists None.
  - assert (Hx : m !! i = Some x ∧ column x = v).
    { apply (elem_of_rows_where (λ y, column y = v)). rewrite Hrows. by left. }
    destruct Hx as [Hi <-].
    rewrite (rows_where_unique column m i x) in Hrows by done.
    injection Hrows as <-. by exists (Some (i, x)).
Qed.

Lemma fmap_bind_singleton {A B C} (f : A → list B) (g : B → C) (h : A → C)
    (P : B → Prop) (Q : A → Prop) `{!∀ y, Decision (P y)} `{!∀ x, Decision (Q x)}
    (l : list A) :
  (∀ x, x ∈ l → ∃ y, f x = [y] ∧ g y = h x ∧ (P y ↔ Q x)) →
  g <$> filter P (l ≫= f) = h <$> filter Q l.
Proof.
  induction l as [|x l IH]; intros Hl; [done|].
  rewrite bind_cons, filter_app, fmap_app.
  destruct (Hl x) as (y & -> & Hg & HPQ); [by left|].
  rewrite IH by (intros z Hz; apply Hl; by right).
  rewrite filter_cons. destruct (decide (P y)) as [HP|HP].
  - rewrite (filter_cons_True Q) by (by apply HPQ). simpl. by rewrite Hg.
  - rewrite (filter_cons_False Q) by (by rewrite <-HPQ). done.
Qed.

(** With the foreign keys and the unique [profiles.user_id] of the schema,
    the view has one row for each service post. *)
Lemma service_posts_view_ids (st : Store) :
  references sp_worker_id (service_posts st) (worker_profiles st) →
  references wp_user_id (worker_profiles st) (users st) →
  unique_on p_user_id (profiles st) →
  spv_id <$> filter (λ r, spv_is_active r = true) (service_posts_view st)
  = fst <$> filter (λ kv, sp_is_active kv.2 = true) (map_to_list (service_posts st)).
Proof.
  intros Hworker Huser Hprofiles. unfold service_posts_view.
  apply fmap_bind_singleton. intros [id sp] Hsp%elem_of_map_to_list.
  destruct (Hworker id sp Hsp) as [wp Hwp].
  destruct (Huser _ wp Hwp) as [u Hu].
  destruct (left_join_unique p_user_id (profiles st) (wp_user_id wp) Hprofiles)
    as [p Hp].
  exists (service_posts_view_row id sp wp u p). split; [|done].
  unfold rows_with_key. rewrite Hwp. simpl. rewrite Hu. simpl.
  unfold select_profiles_by_user_id. rewrite Hp. done.
Qed.

(** C6. The list of [GET /services] is ordered by creation time, newest
    first; each of its rows is the row of a service post of the store whose
    active flag is true, so no inactive post is listed; and, in a store that
    satisfies the foreign keys and the unique [profiles.user_id] of the
    schema, every active service post is listed, exactly once. *)
Theorem get_services_active_newest_first (st : Store) :
  ∃ services,
    get_services st = json (BServices services) ∧
    StronglySorted newer_first services ∧
    (∀ r, r ∈ services →
       spv_is_active r = true ∧
       ∃ sp, service_posts st !! spv_id r = Some sp ∧ sp_is_active sp = true ∧
             spv_created_at r = sp_created_at sp ∧ spv_title r = sp_title sp) ∧
    (references sp_worker_id (service_posts st) (worker_profiles st) →
     references wp_user_id (worker_profiles st) (users st) →
     unique_on p_user_id (profiles st) →
     NoDup (spv_id <$> services) ∧
     ∀ id sp, service_posts st !! id = Some sp → sp_is_active sp = true →
              id ∈ spv_id <$> services).
Proof.
  set (active := filter (λ r, spv_is_active r = true) (service_posts_view st)).
  exists (order_by_created_at_desc active).
  assert (Hperm : order_by_created_at_desc active ≡ₚ active)
    by apply merge_sort_Permutation.
  split_and!.
  - done.
  - apply (StronglySorted_merge_sort _).
  - intros r Hr. rewrite Hperm in Hr.
    apply list_elem_of_filter in Hr as [Hactive Hr].
    apply elem_of_service_posts_view in Hr as (id & sp & wp & u & p & Hsp & _ & _ & _ & ->).
    split; [done|]. by exists sp.
  - intros Hworker Huser Hprofiles.
    assert (Hids : spv_id <$> order_by_created_at_desc active
                   ≡ₚ fst <$> filter (λ kv, sp_is_active kv.2 = true)
                                     (map_to_list (service_posts st))).
    { rewrite Hperm. unfold active. by rewrite service_posts_view_ids. }
    split.
    + rewrite Hids.
      apply (sublist_NoDup _ (fst <$> map_to_list (service_posts st))).
      * apply NoDup_fst_map_to_list.
      * apply fmap_sublist, sublist_filter.
    + intros id sp Hsp Hactive. rewrite Hids.
      apply list_elem_of_fmap. exists (id, sp).
      split; [done|]. apply list_elem_of_filter. split; [done|].
      by apply elem_of_map_to_list.
Qed.

(** ** Translation *)

Section translation_properties.
Variable model : LanguageModel.
Implicit Types s : Ext model.

(** C7. [translateText] from a language to the same language answers the
    text itself and leaves the outside world as it was: the state of the
    translation service and the list of the prompts sent to it are
    unchanged, so no call was made. *)
Theorem translateText_same_language (t l : string) (c : option TranslationContext)
    (s : Ext model) :
  translateText model
    {| text := t; fromLanguage := l; toLanguage := l; context_ := c |} s
  = (inr t, s).
Proof. unfold translateText, try_catch. simpl. by rewrite decide_True. Qed.

Lemma translateText_fulfils : fulfils model (translateText model).
Proof.
  intros req s. unfold translateText, try_catch.
  destruct (decide (fromLanguage req = toLanguage req)); simpl; [by eauto|].
  unfold mbind, Async_bind, model_generateContent.
  destruct (generateContent model _ _) as [[e|r] w]; simpl; by eauto.
Qed.

Lemma Promise_all_app {A} (ps qs : list (Async model A)) s :
  Promise_all model (ps ++ qs) s =
  let '(r1, s1) := Promise_all model ps s in
  let '(r2, s2) := Promise_all model qs s1 in
  (match r1, r2 with
   | inl e, _ => inl e
   | inr _, inl e => inl e
   | inr xs, inr ys => inr (xs ++ ys)
   end, s2).
Proof.
  revert s. induction ps as [|p ps IH]; intros s; simpl.
  - by destruct (Promise_all model qs s) as [[?|?] ?].
  - destruct (p s) as [r s0]. rewrite IH.
    destruct (Promise_all model ps s0) as [r1 s1].
    destruct (Promise_all model qs s1) as [r2 s2].
    by destruct r as [?|?], r1 as [?|?], r2 as [?|?].
Qed.

Lemma Promise_all_fulfils {A B} (f : A → Async model B) (l : list A) s :
  fulfils model f →
  ∃ rs s', Promise_all model (f <$> l) s = (inr rs, s') ∧
           Forall2 (λ x r, ∃ s1 s2, f x s1 = (inr r, s2)) l rs.
Proof.
  intros Hf. revert s. induction l as [|x l IH]; intros s.
  - exists [], s. by split.
  - destruct (Hf x s) as (r & s1 & Hx). destruct (IH s1) as (rs & s2 & Hl & Hrs).
    exists (r :: rs), s2. rewrite fmap_cons. cbn [Promise_all].
    rewrite Hx, Hl. split; [done|].
    constructor; [by eauto|done].
Qed.

Lemma loop_run_batches (translate : string → Async model string)
    (texts : list string) (i : nat) (results : list string) s :
  translateBatch_loop model translate texts i results s
  = run_batches model translate (batches texts i) results s.
Proof.
  revert s.
  funelim (batches texts i); intros s; simp translateBatch_loop;
    rewrite Heq; simpl; [|done].
  unfold mbind, Async_bind.
  destruct (Promise_all model _ s) as [[e|batchResults] s1]; [done|].
  match goal with IH : ∀ _ _ _, translateBatch_loop _ _ _ _ _ _ = _ |- _ => apply IH end.
Qed.

Lemma concat_batches (texts : list string) (i : nat) :
  concat (batches texts i) = drop i texts.
Proof.
  funelim (batches texts i); simpl.
  - match goal with IH : concat _ = _ |- _ => rewrite IH end.
    unfold slice. replace (i + batchSize - i)%nat with batchSize by lia.
    by rewrite <-drop_drop, take_drop.
  - symmetry. apply drop_ge. lia.
Qed.

Lemma lookup_batches (texts : list string) (i k : nat) (batch : list string) :
  batches texts i !! k = Some batch →
  batch = take batchSize (drop (i + k * batchSize) texts) ∧
  (1 ≤ length batch ≤ batchSize)%nat.
Proof.
  revert k. funelim (batches texts i); intros k Hk; [|done].
  destruct k as [|k]; simpl in Hk.
  - injection Hk as <-. unfold slice.
    replace (i + batchSize - i)%nat with batchSize by lia.
    rewrite Nat.add_0_r. split; [done|].
    rewrite length_take, length_drop. unfold batchSize. lia.
  - match goal with IH : ∀ _ _, _ !! _ = Some _ → _ |- _ => apply IH in Hk as [-> Hlen] end.
    split; [|done]. do 2 f_equal. unfold batchSize. lia.
Qed.

Lemma run_batches_fulfils (translate : string → Async model string)
    (bs : list (list string)) (results : list string) s :
  fulfils model translate →
  ∃ rs s', Promise_all model (translate <$> concat bs) s = (inr rs, s') ∧
           run_batches model translate bs results s = (inr (results ++ rs), s').
Proof.
  intros Hf. revert results s. induction bs as [|b bs IH]; intros results s.
  - exists [], s. simpl. by rewrite app_nil_r.
  - destruct (Promise_all_fulfils translate b s Hf) as (r1 & s1 & Hb & _).
    destruct (IH (results ++ r1) s1) as (rs & s2 & Hbs & Hrun).
    exists (r1 ++ rs), s2. simpl. rewrite fmap_app, Promise_all_app, Hb, Hbs.
    split; [done|]. unfold mbind, Async_bind. rewrite Hb, Hrun.
    by rewrite app_assoc.
Qed.

(** C8. [translateBatch] fulfils with one result for each input text, in the
    order of the inputs: the list of the results is the one obtained by
    translating the texts one after the other, and its [i]-th element is a
    result of [translateText] on the [i]-th text. The loop works through
    the texts in consecutive batches of [batchSize] = 5 (the last one may be
    shorter), awaiting each batch before the next. Were the loop to reject,
    whatever the translation of one text, the original texts are returned. *)
Theorem translateBatch_preserves_order (texts : list string)
    (fromLanguage toLanguage : string) (c : option TranslationContext) s :
  let translate := λ t, translateText model
                          {| text := t; fromLanguage := fromLanguage;
                             toLanguage := toLanguage; context_ := c |} in
  ∃ results s',
    translateBatch model texts fromLanguage toLanguage c s = (inr results, s') ∧
    Promise_all model (translate <$> texts) s = (inr results, s') ∧
    length results = length texts ∧
    (∀ i t, texts !! i = Some t →
       ∃ r s1 s2, results !! i = Some r ∧ translate t s1 = (inr r, s2)) ∧
    (∃ bs, concat bs = texts ∧
       (∀ k batch, bs !! k = Some batch →
          batch = take 5 (drop (k * 5) texts) ∧ (1 ≤ length batch ≤ 5)%nat) ∧
       ∀ tr s0, translateBatch_loop model tr texts 0 [] s0
                = run_batches model tr bs [] s0) ∧
    (∀ tr e s0 s1,
       translateBatch_loop model tr texts 0 [] s0 = (inl e, s1) →
       translateBatch_with model tr texts s0 = (inr texts, s1)).
Proof.
  intros translate.
  assert (Hf : fulfils model translate) by (intros t s0; apply translateText_fulfils).
  destruct (run_batches_fulfils translate (batches texts 0) [] s Hf)
    as (results & s' & Hall & Hrun).
  rewrite concat_batches, drop_0 in Hall.
  destruct (Promise_all_fulfils translate texts s Hf) as (rs & s'' & Hall' & Hrs).
  rewrite Hall in Hall'. injection Hall' as <- <-.
  exists results, s'. split_and!.
  - unfold translateBatch, translateBatch_with, try_catch.
    fold translate. by rewrite loop_run_batches, Hrun.
  - done.
  - symmetry. by eapply Forall2_length.
  - intros i t Hi.
    destruct (Forall2_lookup_l _ _ _ _ _ Hrs Hi) as (r & Hr & s1 & s2 & Ht).
    by exists r, s1, s2.
  - exists (batches texts 0). split_and!.
    + by rewrite concat_batches, drop_0.
    + intros k batch Hk. by apply lookup_batches in Hk.
    + intros tr s0. apply loop_run_batches.
  - intros tr e s0 s1 Hloop. unfold translateBatch_with, try_catch.
    by rewrite Hloop.
Qed.
End translation_properties.

(** * The theorems on the small store *)


Lemma sample_users_unique : unique_on u_auth_id (users sample_store).
Proof. apply unique_on_NoDup. by_computation. Qed.

Lemma sample_profiles_unique : unique_on p_user_id (profiles sample_store).
Proof. apply unique_on_NoDup. by_computation. Qed.


Lemma select_role_creates_or_overwrites_witness :
  RoleSelectionBody_ok {| role := "WORKER" |} ∧
  (∀ i u, users sample_store !! i = Some u → u_auth_id u ≠ 300%nat) ∧
  (∃ userId,
     users sample_store !! userId = None ∧
     (post_select_role 10 (request 300 {| role := "WORKER" |}) sample_store).2
     = json (BRoleSelected userId "WORKER")) ∧
  users sample_store !! 1%nat = Some ravi ∧
  unique_on u_auth_id (users sample_store) ∧
  post_select_role 10 (request 200 {| role := "WORKER" |}) sample_store
  = (with_users (insert 1%nat (set_role "WORKER" ravi)) sample_store,
     json (BRoleSelected 1 "WORKER")).
Proof.
  assert (Hok : RoleSelectionBody_ok {| role := "WORKER" |}) by by_computation.
  assert (Hnone : ∀ i u, users sample_store !! i = Some u → u_auth_id u ≠ 300%nat).
  { apply (bool_decide_unpack
             (map_Forall (λ _ u, u_auth_id u ≠ 300%nat) (users sample_store))).
    vm_compute. exact I. }
  split_and!; [exact Hok|exact Hnone| |reflexivity|exact sample_users_unique|].
  - destruct (select_role_creates_or_overwrites 10
                (request 300 {| role := "WORKER" |}) sample_store Hok) as [Hnew _].
    destruct (Hnew Hnone) as (userId & row & st' & Hrun & Hfresh & _).
    exists userId. split; [exact Hfresh|]. rewrite Hrun. reflexivity.
  - destruct (select_role_creates_or_overwrites 10
                (request 200 {| role := "WORKER" |}) sample_store Hok) as [_ Hold].
    destruct (Hold 1%nat ravi eq_refl eq_refl sample_users_unique)
      as (st' & Hrun & -> & _).
    exact Hrun.
Defined.

Lemma post_profile_sets_verified_witness :
  let run := post_profile 20 (request 100 (sample_profile_body "Asha K" "9876543210"))
               sample_store in
  status run.2 = 200 ∧
  ∃ userId u id row,
    users sample_store !! userId = Some u ∧ u_auth_id u = 100%nat ∧
    select_profiles_by_user_id run.1 userId = [(id, row)] ∧
    p_name row = "Asha K" ∧ p_verified row = true.
Proof.
  intros run.
  assert (Hstatus : status run.2 = 200) by (vm_compute; reflexivity).
  split; [exact Hstatus|].
  destruct (post_profile_sets_verified 20
              (request 100 (sample_profile_body "Asha K" "9876543210"))
              sample_store run.1 run.2 (surjective_pairing run) Hstatus)
    as (userId & u & id & row & Hu & Hauth & _ & _ & _ & Hrows & _ & _ & Hname & Hverified).
  exists userId, u, id, row. split_and!; assumption.
Defined.



Lemma post_requirements_zero_price_is_null_witness :
  RequirementPostBody_ok sample_requirement_body ∧
  preferredPrice sample_requirement_body = Some 0 ∧
  unique_on u_auth_id (users sample_store) ∧
  users sample_store !! 1%nat = Some ravi ∧
  ∃ id row,
    post_requirements 40 (request 200 sample_requirement_body) sample_store
    = (with_requirements (insert id row) sample_store, json (BRequirement id row)) ∧
    r_preferred_price row = None.
Proof.
  assert (Hok : RequirementPostBody_ok sample_requirement_body) by by_computation.
  split_and!; [exact Hok|reflexivity|exact sample_users_unique|reflexivity|].
  destruct (post_requirements_zero_price_is_null 40
              (request 200 sample_requirement_body) sample_store 1 ravi
              Hok eq_refl sample_users_unique eq_refl eq_refl eq_refl)
    as (_ & id & row & Hrun & _ & _ & Hprice).
  exists id, row. split; assumption.
Defined.

Lemma toggle_changes_only_is_active_witness :
  let run := patch_services_toggle (request_on 100 1 ()) sample_store in
  status run.2 = 200 ∧
  ∃ sp',
    service_posts run.1 = <[1%nat := sp']> (service_posts sample_store) ∧
    sp_is_active sp' = true ∧ sp_title sp' = "Tiffin".
Proof.
  intros run.
  assert (Hstatus : status run.2 = 200) by (vm_compute; reflexivity).
  split; [exact Hstatus|].
  destruct (toggle_changes_only_is_active (request_on 100 1 ()) sample_store
              run.1 run.2 (surjective_pairing run) Hstatus)
    as (id & sp & sp' & wp & u & Hid & Hsp & _ & _ & _ & _ & Hposts & _
        & Hactive & (_ & Htitle & _) & _).
  vm_compute in Hid. injection Hid as <-.
  vm_compute in Hsp. injection Hsp as <-.
  exists sp'. split_and!; assumption.
Defined.

Lemma get_services_active_newest_first_witness :
  references sp_worker_id (service_posts sample_store) (worker_profiles sample_store) ∧
  references wp_user_id (worker_profiles sample_store) (users sample_store) ∧
  unique_on p_user_id (profiles sample_store) ∧
  ∃ services,
    get_services sample_store = json (BServices services) ∧
    spv_id <$> services = [2; 0]%nat ∧
    StronglySorted newer_first services ∧
    NoDup (spv_id <$> services) ∧
    (∀ id sp, service_posts sample_store !! id = Some sp → sp_is_active sp = true →
              id ∈ spv_id <$> services).
Proof.
  assert (Hworker : references sp_worker_id (service_posts sample_store)
                      (worker_profiles sample_store)) by by_computation.
  assert (Huser : references wp_user_id (worker_profiles sample_store)
                    (users sample_store)) by by_computation.
  split_and!; [exact Hworker|exact Huser|exact sample_profiles_unique|].
  destruct (get_services_active_newest_first sample_store)
    as (services & Hrun & Hsorted & _ & Hall).
  destruct (Hall Hworker Huser sample_profiles_unique) as [Hnodup Hlisted].
  exists services. split_and!; try assumption.
  assert (Hservices : BServices services = body (get_services sample_store))
    by (rewrite Hrun; reflexivity).
  vm_compute in Hservices. injection Hservices as ->. reflexivity.
Defined.

Lemma translateBatch_preserves_order_witness :
  let s := {| world := 0%nat : model_state quota_model; calls := [] |} in
  let reject := λ (t : string) (s : Ext quota_model), (inl "boom" : string + string, s) in
  translateBatch_loop quota_model reject ["a"; "b"] 0 [] s = (inl "boom", s) ∧
  translateBatch_with quota_model reject ["a"; "b"] s = (inr ["a"; "b"], s) ∧
  ∃ results s',
    translateBatch quota_model ["a"; "b"; "c"; "d"; "e"; "f"] "en" "hi" None s
    = (inr results, s') ∧
    length results = 6%nat.
Proof.
  intros s reject.
  assert (Hloop : translateBatch_loop quota_model reject ["a"; "b"] 0 [] s
                  = (inl "boom", s)) by (vm_compute; reflexivity).
  split; [exact Hloop|].
  split.
  - destruct (translateBatch_preserves_order quota_model ["a"; "b"] "en" "hi" None s)
      as (_ & _ & _ & _ & _ & _ & _ & Hcatch).
    exact (Hcatch reject "boom" s s Hloop).
  - destruct (translateBatch_preserves_order quota_model
                ["a"; "b"; "c"; "d"; "e"; "f"] "en" "hi" None s)
      as (results & s' & Hrun & _ & Hlength & _).
    exists results, s'. split; assumption.
Defined.

(** The deletion on the small store: Asha owns the post 1 and toggling it
    succeeds, but deleting it is answered 404 and the post is still there. *)
Lemma delete_services_owner_not_found :
  status (patch_services_toggle (request_on 100 1 ()) sample_store).2 = 200 ∧
  delete_services (request_on 100 1 ()) sample_store
  = (sample_store, fail 404 "Service not found or not owned by you") ∧
  is_Some (service_posts sample_store !! 1%nat).
Proof. split_and!; [by vm_compute|reflexivity|by eexists]. Qed.

(** * Further properties of the handlers *)

(** ** Queries on a view *)

Section view_queries.
Context {A B : Type} (P : B → Prop) `{!∀ y, Decision (P y)}.
Implicit Types (m : gmap nat A) (f : nat * A → list B).

Lemma filter_bind_nil m f :
  (∀ j x y, m !! j = Some x → y ∈ f (j, x) → ¬ P y) →
  filter P (map_to_list m ≫= f) = [].
Proof.
  intros Hnone. apply elem_of_nil_inv. intros y [HP Hy]%list_elem_of_filter.
  apply list_elem_of_bind in Hy as ([j x] & Hy & Hx%elem_of_map_to_list).
  by apply (Hnone j x y).
Qed.

Lemma filter_bind_lookup m f i x :
  m !! i = Some x →
  (∀ j z y, j ≠ i → m !! j = Some z → y ∈ f (j, z) → ¬ P y) →
  filter P (map_to_list m ≫= f) ≡ₚ filter P (f (i, x)).
Proof.
  intros Hi Hrest. rewrite <-(map_to_list_delete m i x Hi).
  rewrite bind_cons, filter_app, filter_bind_nil, app_nil_r; [done|].
  intros j z y [Hne Hj]%lookup_delete_Some Hy.
  apply (Hrest j z y); [congruence|done|done].
Qed.

Lemma filter_bind_singleton m f i x y :
  m !! i = Some x → f (i, x) = [y] → P y →
  (∀ j z y', j ≠ i → m !! j = Some z → y' ∈ f (j, z) → ¬ P y') →
  filter P (map_to_list m ≫= f) = [y].
Proof.
  intros Hi Hf HP Hrest. apply Permutation_singleton_r.
  rewrite (filter_bind_lookup m f i x Hi Hrest), Hf.
  by rewrite filter_cons_True.
Qed.
End view_queries.

Lemma left_join_profiles (st : Store) (userId : nat) :
  unique_on p_user_id (profiles st) →
  ∃ p, left_join (select_profiles_by_user_id st userId) = [p] ∧
       ∀ i x, p = Some (i, x) → profiles st !! i = Some x ∧ p_user_id x = userId.
Proof.
  intros Huniq.
  destruct (left_join_unique p_user_id (profiles st) userId Huniq) as [p Hp].
  exists p. split; [done|]. intros i x ->.
  apply (elem_of_rows_where (λ y, p_user_id y = userId)).
  destruct (rows_where _ (profiles st)) as [|q [|q' rows]]; simplify_eq/=.
  by left.
Qed.

Lemma left_join_worker_profiles (st : Store) (userId : nat) :
  unique_on wp_user_id (worker_profiles st) →
  ∃ w, left_join (select_worker_profiles_by_user_id st userId) = [w] ∧
       ∀ i x, w = Some (i, x) →
              worker_profiles st !! i = Some x ∧ wp_user_id x = userId.
Proof.
  intros Huniq.
  destruct (left_join_unique wp_user_id (worker_profiles st) userId Huniq) as [w Hw].
  exists w. split; [done|]. intros i x ->.
  apply (elem_of_rows_where (λ y, wp_user_id y = userId)).
  destruct (rows_where _ (worker_profiles st)) as [|q [|q' rows]]; simplify_eq/=.
  by left.
Qed.

(** ** Ownership of the service posts *)

Lemma elem_of_post_rows (st : Store) (id : nat) (sp : ServicePost) (r : ServicePostView) :
  r ∈ ('(_, wp) ← rows_with_key (worker_profiles st) (sp_worker_id sp);
       '(uid, u) ← rows_with_key (users st) (wp_user_id wp);
       p ← left_join (select_profiles_by_user_id st uid);
       [service_posts_view_row id sp wp u p]) →
  ∃ wp u p,
    worker_profiles st !! sp_worker_id sp = Some wp ∧
    users st !! wp_user_id wp = Some u ∧
    r = service_posts_view_row id sp wp u p.
Proof.
  intros Hr.
  apply list_elem_of_bind in Hr as ([w wp] & Hr & Hwp).
  apply elem_of_rows_with_key in Hwp as [-> Hwp].
  apply list_elem_of_bind in Hr as ([uid u] & Hr & Hu).
  apply elem_of_rows_with_key in Hu as [-> Hu].
  apply list_elem_of_bind in Hr as (p & Hr & Hp).
  apply list_elem_of_singleton in Hr. by exists wp, u, p.
Qed.

Lemma post_rows_of_owner (st : Store) (id : nat) (sp : ServicePost)
    (wp : WorkerProfile) (u : User) :
  worker_profiles st !! sp_worker_id sp = Some wp →
  users st !! wp_user_id wp = Some u →
  unique_on p_user_id (profiles st) →
  ∃ p, ('(_, wp) ← rows_with_key (worker_profiles st) (sp_worker_id sp);
        '(uid, u) ← rows_with_key (users st) (wp_user_id wp);
        p ← left_join (select_profiles_by_user_id st uid);
        [service_posts_view_row id sp wp u p])
       = [service_posts_view_row id sp wp u p].
Proof.
  intros Hwp Hu Hprofiles.
  destruct (left_join_profiles st (wp_user_id wp) Hprofiles) as (p & Hp & _).
  exists p. unfold rows_with_key. rewrite Hwp. simpl. rewrite Hu. simpl.
  by rewrite Hp.
Qed.

Lemma select_view_of_owner (st : Store) (id authId : nat) (sp : ServicePost)
    (wp : WorkerProfile) (u : User) :
  service_posts st !! id = Some sp →
  worker_profiles st !! sp_worker_id sp = Some wp →
  users st !! wp_user_id wp = Some u →
  u_auth_id u = authId →
  unique_on p_user_id (profiles st) →
  ∃ p, filter (λ r, spv_id r = id ∧ spv_auth_id r = authId) (service_posts_view st)
       = [service_posts_view_row id sp wp u p].
Proof.
  intros Hsp Hwp Hu Hauth Hprofiles.
  destruct (post_rows_of_owner st id sp wp u Hwp Hu Hprofiles) as [p Hp].
  exists p. unfold service_posts_view.
  apply (filter_bind_singleton _ _ _ id sp); [done|exact Hp|done|].
  intros j z r Hj _ Hr [Hid _].
  apply elem_of_post_rows in Hr as (? & ? & ? & _ & _ & ->). by simpl in Hid.
Qed.

Lemma select_view_not_owner (st : Store) (id authId : nat) :
  (∀ sp wp u,
     service_posts st !! id = Some sp →
     worker_profiles st !! sp_worker_id sp = Some wp →
     users st !! wp_user_id wp = Some u → u_auth_id u ≠ authId) →
  filter (λ r, spv_id r = id ∧ spv_auth_id r = authId) (service_posts_view st) = [].
Proof.
  intros Hnot. unfold service_posts_view. apply filter_bind_nil.
  intros j sp r Hsp Hr [Hid Hauth].
  apply elem_of_post_rows in Hr as (wp & u & p & Hwp & Hu & ->).
  simpl in Hid, Hauth. subst j. by apply (Hnot sp wp u).
Qed.

Lemma set_is_active_twice (sp : ServicePost) :
  set_is_active (negb (sp_is_active (set_is_active (negb (sp_is_active sp)) sp)))
    (set_is_active (negb (sp_is_active sp)) sp) = sp.
Proof. destruct sp as [? ? ? ? ? ? ? ? [] ? ?]; reflexivity. Qed.

Lemma toggle_by_owner (req : Request unit) (st : Store) (id : nat)
    (sp : ServicePost) (wp : WorkerProfile) (u : User) :
  params req !! "id" = Some id →
  service_posts st !! id = Some sp →
  worker_profiles st !! sp_worker_id sp = Some wp →
  users st !! wp_user_id wp = Some u →
  u_auth_id u = user_authId req →
  unique_on p_user_id (profiles st) →
  patch_services_toggle req st
  = (with_service_posts (insert id (set_is_active (negb (sp_is_active sp)) sp)) st,
     json (BServicePost id (set_is_active (negb (sp_is_active sp)) sp))).
Proof.
  intros Hid Hsp Hwp Hu Hauth Hprofiles.
  destruct (select_view_of_owner st id (user_authId req) sp wp u) as [p Hrows];
    [done..|].
  unfold patch_services_toggle. rewrite Hid. simpl. rewrite Hrows. simpl.
  unfold rows_with_key. rewrite lookup_alter_eq, Hsp. simpl.
  unfold with_service_posts. by rewrite (alter_lookup_insert _ _ _ sp).
Qed.

(** X2. [PATCH /services/:id/toggle] for a post that does not exist, or
    whose worker profile belongs to another identity than the caller's, is
    answered 404 with the same message in both cases, and changes nothing. *)
Theorem toggle_requires_ownership (req : Request unit) (st : Store) (id : nat) :
  params req !! "id" = Some id →
  (∀ sp wp u,
     service_posts st !! id = Some sp →
     worker_profiles st !! sp_worker_id sp = Some wp →
     users st !! wp_user_id wp = Some u → u_auth_id u ≠ user_authId req) →
  patch_services_toggle req st
  = (st, fail 404 "Service not found or not owned by you").
Proof.
  intros Hid Hnot. unfold patch_services_toggle. rewrite Hid. simpl.
  by rewrite select_view_not_owner.
Qed.

(** X3. The owner of a service post can always toggle it (200), and toggling
    twice gives back the store as it was: the second toggle undoes the
    first. *)
Theorem toggle_twice_restores (req : Request unit) (st : Store) (id : nat)
    (sp : ServicePost) (wp : WorkerProfile) (u : User) :
  params req !! "id" = Some id →
  service_posts st !! id = Some sp →
  worker_profiles st !! sp_worker_id sp = Some wp →
  users st !! wp_user_id wp = Some u →
  u_auth_id u = user_authId req →
  unique_on p_user_id (profiles st) →
  let once := patch_services_toggle req st in
  let twice := patch_services_toggle req once.1 in
  status once.2 = 200 ∧ status twice.2 = 200 ∧
  (∃ sp', service_posts once.1 !! id = Some sp' ∧
          sp_is_active sp' = negb (sp_is_active sp)) ∧
  twice.1 = st.
Proof.
  intros Hid Hsp Hwp Hu Hauth Hprofiles once twice.
  set (sp' := set_is_active (negb (sp_is_active sp)) sp).
  assert (Honce : once = (with_service_posts (insert id sp') st,
                          json (BServicePost id sp')))
    by (by apply (toggle_by_owner req st id sp wp u)).
  assert (Htwice : twice = (with_service_posts
                              (insert id (set_is_active (negb (sp_is_active sp')) sp'))
                              once.1,
                            json (BServicePost id
                                    (set_is_active (negb (sp_is_active sp')) sp')))).
  { unfold twice. rewrite Honce.
    apply (toggle_by_owner req _ id sp' wp u); try done.
    simpl. by rewrite lookup_insert_eq. }
  assert (Hback : set_is_active (negb (sp_is_active sp')) sp' = sp)
    by apply set_is_active_twice.
  rewrite Hback in Htwice. rewrite Htwice, Honce. cbn [fst snd].
  split_and!; [done|done| |].
  - exists sp'. split; [|done]. simpl. by rewrite lookup_insert_eq.
  - unfold with_service_posts. simpl.
    rewrite insert_insert_eq, insert_id by done. by destruct st.
Qed.

(** ** What the lists of services show *)

Lemma elem_of_listed_services (st : Store) (id : nat) :
  references sp_worker_id (service_posts st) (worker_profiles st) →
  references wp_user_id (worker_profiles st) (users st) →
  unique_on p_user_id (profiles st) →
  id ∈ listed_services st ↔
  ∃ sp, service_posts st !! id = Some sp ∧ sp_is_active sp = true.
Proof.
  intros Hworker Huser Hprofiles. unfold listed_services, get_services. simpl.
  unfold order_by_created_at_desc. rewrite merge_sort_Permutation.
  rewrite service_posts_view_ids by done.
  rewrite list_elem_of_fmap. split.
  - intros ([i sp] & -> & [Hactive Hsp%elem_of_map_to_list]%list_elem_of_filter).
    by exists sp.
  - intros (sp & Hsp & Hactive). exists (id, sp). split; [done|].
    apply list_elem_of_filter. split; [done|]. by apply elem_of_map_to_list.
Qed.

(** X4. When the owner toggles a service post, the post leaves the public
    list of [GET /services] if it was active and enters it if it was not;
    the presence of every other post in the list is unchanged. *)
Theorem toggle_changes_listing (req : Request unit) (st : Store) (id : nat)
    (sp : ServicePost) (wp : WorkerProfile) (u : User) :
  params req !! "id" = Some id →
  service_posts st !! id = Some sp →
  worker_profiles st !! sp_worker_id sp = Some wp →
  users st !! wp_user_id wp = Some u →
  u_auth_id u = user_authId req →
  references sp_worker_id (service_posts st) (worker_profiles st) →
  references wp_user_id (worker_profiles st) (users st) →
  unique_on p_user_id (profiles st) →
  let st' := (patch_services_toggle req st).1 in
  (id ∈ listed_services st ↔ sp_is_active sp = true) ∧
  (id ∈ listed_services st' ↔ sp_is_active sp = false) ∧
  ∀ j, j ≠ id → (j ∈ listed_services st' ↔ j ∈ listed_services st).
Proof.
  intros Hid Hsp Hwp Hu Hauth Hworker Huser Hprofiles st'.
  unfold st'. rewrite (toggle_by_owner req st id sp wp u) by done. simpl.
  set (sp' := set_is_active (negb (sp_is_active sp)) sp).
  assert (Hworker' : references sp_worker_id
                       (service_posts (with_service_posts (insert id sp') st))
                       (worker_profiles st)).
  { simpl. apply references_insert; [done|]. simpl. by rewrite Hwp. }
  split_and!.
  - rewrite elem_of_listed_services by done. rewrite Hsp. split.
    + by intros (? & [= <-] & Hactive).
    + intros Hactive. by exists sp.
  - rewrite elem_of_listed_services by done. simpl. rewrite lookup_insert_eq.
    split.
    + intros (? & [= <-] & Hactive). simpl in Hactive. by destruct (sp_is_active sp).
    + intros Hactive. exists sp'. split; [done|]. simpl. by rewrite Hactive.
  - intros j Hj. rewrite !elem_of_listed_services by done. simpl.
    by rewrite lookup_insert_ne.
Qed.


Lemma fmap_bind_at_most_one {A B C} (f : A → list B) (g : B → C) (h : A → C)
    (P : B → Prop) (Q : A → Prop) `{!∀ y, Decision (P y)} `{!∀ x, Decision (Q x)}
    (l : list A) :
  (∀ x, x ∈ l → (f x = [] ∧ ¬ Q x) ∨
                ∃ y, f x = [y] ∧ g y = h x ∧ (P y ↔ Q x)) →
  g <$> filter P (l ≫= f) = h <$> filter Q l.
Proof.
  induction l as [|x l IH]; intros Hl; [done|].
  rewrite bind_cons, filter_app, fmap_app.
  rewrite IH by (intros z Hz; apply Hl; by right).
  destruct (Hl x) as [[-> HQ]|(y & -> & Hg & HPQ)]; [by left|..].
  - by rewrite (filter_cons_False Q).
  - rewrite filter_cons. destruct (decide (P y)) as [HP|HP].
    + rewrite (filter_cons_True Q) by (by apply HPQ). simpl. by rewrite Hg.
    + rewrite (filter_cons_False Q) by (by rewrite <-HPQ). done.
Qed.

Lemma my_services_ids (st : Store) (authId : nat) :
  unique_on p_user_id (profiles st) →
  spv_id <$> filter (λ r, spv_auth_id r = authId) (service_posts_view st)
  = fst <$> filter (λ kv, post_owner st kv.2 = Some authId)
                   (map_to_list (service_posts st)).
Proof.
  intros Hprofiles. unfold service_posts_view.
  apply fmap_bind_at_most_one. intros [id sp] _. unfold post_owner. simpl.
  destruct (worker_profiles st !! sp_worker_id sp) as [wp|] eqn:Hwp; simpl.
  2:{ left. unfold rows_with_key. rewrite Hwp. by split. }
  destruct (users st !! wp_user_id wp) as [u|] eqn:Hu; simpl.
  2:{ left. unfold rows_with_key. rewrite Hwp. simpl. rewrite Hu. by split. }
  right. destruct (post_rows_of_owner st id sp wp u Hwp Hu Hprofiles) as [p Hp].
  exists (service_posts_view_row id sp wp u p). split_and!; [done|done|].
  simpl. split; [by intros ->|by intros [= ->]].
Qed.

(** X6. The list of [GET /my-services] is ordered newest first and holds
    only posts whose worker profile belongs to the caller, whether active or
    not; with [profiles.user_id] unique, each post of the caller is listed
    exactly once. *)
Theorem my_services_are_the_callers (authId : nat) (st : Store) :
  ∃ services,
    get_my_services authId st = json (BServices services) ∧
    StronglySorted newer_first services ∧
    (∀ r, r ∈ services →
       spv_auth_id r = authId ∧
       ∃ sp, service_posts st !! spv_id r = Some sp ∧
             post_owner st sp = Some authId ∧
             spv_is_active r = sp_is_active sp) ∧
    (unique_on p_user_id (profiles st) →
     NoDup (spv_id <$> services) ∧
     ∀ id sp, service_posts st !! id = Some sp → post_owner st sp = Some authId →
              id ∈ spv_id <$> services).
Proof.
  set (mine := filter (λ r, spv_auth_id r = authId) (service_posts_view st)).
  exists (order_by_created_at_desc mine).
  assert (Hperm : order_by_created_at_desc mine ≡ₚ mine)
    by apply merge_sort_Permutation.
  split_and!.
  - done.
  - apply (StronglySorted_merge_sort _).
  - intros r Hr. rewrite Hperm in Hr.
    apply list_elem_of_filter in Hr as [Hauth Hr].
    apply elem_of_service_posts_view in Hr
      as (id & sp & wp & u & p & Hsp & Hwp & Hu & _ & ->).
    split; [done|]. exists sp. split_and!; [done| |done].
    unfold post_owner. rewrite Hwp. simpl. rewrite Hu. simpl. by f_equal.
  - intros Hprofiles.
    assert (Hids : spv_id <$> order_by_created_at_desc mine
                   ≡ₚ fst <$> filter (λ kv, post_owner st kv.2 = Some authId)
                                     (map_to_list (service_posts st))).
    { rewrite Hperm. unfold mine. by rewrite my_services_ids. }
    split.
    + rewrite Hids.
      apply (sublist_NoDup _ (fst <$> map_to_list (service_posts st))).
      * apply NoDup_fst_map_to_list.
      * apply fmap_sublist, sublist_filter.
    + intros id sp Hsp Howner. rewrite Hids.
      apply list_elem_of_fmap. exists (id, sp). split; [done|].
      apply list_elem_of_filter. split; [done|]. by apply elem_of_map_to_list.
Qed.

(** ** Requirements *)

#[global] Instance newer_requirement_first_total : Total newer_requirement_first.
Proof. intros a b. unfold newer_requirement_first. lia. Qed.

#[global] Instance newer_requirement_first_trans : Transitive newer_requirement_first.
Proof. intros a b c. unfold newer_requirement_first. lia. Qed.

Lemma elem_of_requirements_view (st : Store) (r : RequirementView) :
  r ∈ requirements_view st →
  ∃ id rq u p,
    requirements st !! id = Some rq ∧
    users st !! r_owner_id rq = Some u ∧
    r = requirements_view_row id rq u p.
Proof.
  unfold requirements_view. intros Hr.
  apply list_elem_of_bind in Hr as ([id rq] & Hr & Hrq%elem_of_map_to_list).
  apply list_elem_of_bind in Hr as ([uid u] & Hr & Hu).
  apply elem_of_rows_with_key in Hu as [-> Hu].
  apply list_elem_of_bind in Hr as (p & Hr & Hp).
  apply list_elem_of_singleton in Hr. by exists id, rq, u, p.
Qed.

Lemma requirements_view_ids (st : Store) :
  references r_owner_id (requirements st) (users st) →
  unique_on p_user_id (profiles st) →
  rqv_id <$> filter (λ r, rqv_is_open r = true) (requirements_view st)
  = fst <$> filter (λ kv, r_is_open kv.2 = true) (map_to_list (requirements st)).
Proof.
  intros Howner Hprofiles. unfold requirements_view.
  apply fmap_bind_singleton. intros [id rq] Hrq%elem_of_map_to_list.
  destruct (Howner id rq Hrq) as [u Hu].
  destruct (left_join_profiles st (r_owner_id rq) Hprofiles) as (p & Hp & _).
  exists (requirements_view_row id rq u p). split; [|done].
  unfold rows_with_key. rewrite Hu. simpl. by rewrite Hp.
Qed.


(** X7. The list of [GET /requirements] is ordered by creation time, newest
    first, and each of its rows is an open requirement of the store, so no
    closed requirement is listed; when every requirement references a user
    and [profiles.user_id] is unique, every open requirement is listed,
    exactly once. *)
Theorem get_requirements_open_newest_first (st : Store) :
  ∃ listed,
    get_requirements st = reply (PRequirements listed) ∧
    StronglySorted newer_requirement_first listed ∧
    (∀ r, r ∈ listed →
       rqv_is_open r = true ∧
       ∃ rq, requirements st !! rqv_id r = Some rq ∧ r_is_open rq = true ∧
             rqv_created_at r = r_created_at rq ∧
             rqv_owner_id r = r_owner_id rq) ∧
    (references r_owner_id (requirements st) (users st) →
     unique_on p_user_id (profiles st) →
     NoDup (rqv_id <$> listed) ∧
     ∀ id rq, requirements st !! id = Some rq → r_is_open rq = true →
              id ∈ rqv_id <$> listed).
Proof.
  set (open := filter (λ r, rqv_is_open r = true) (requirements_view st)).
  exists (merge_sort newer_requirement_first open).
  assert (Hperm : merge_sort newer_requirement_first open ≡ₚ open)
    by apply merge_sort_Permutation.
  split_and!.
  - done.
  - apply (StronglySorted_merge_sort _).
  - intros r Hr. rewrite Hperm in Hr.
    apply list_elem_of_filter in Hr as [Hopen Hr].
    apply elem_of_requirements_view in Hr as (id & rq & u & p & Hrq & _ & ->).
    split; [done|]. by exists rq.
  - intros Howner Hprofiles.
    assert (Hids : rqv_id <$> merge_sort newer_requirement_first open
                   ≡ₚ fst <$> filter (λ kv, r_is_open kv.2 = true)
                                     (map_to_list (requirements st))).
    { rewrite Hperm. unfold open. by rewrite requirements_view_ids. }
    split.
    + rewrite Hids.
      apply (sublist_NoDup _ (fst <$> map_to_list (requirements st))).
      * apply NoDup_fst_map_to_list.
      * apply fmap_sublist, sublist_filter.
    + intros id rq Hrq Hopen. rewrite Hids.
      apply list_elem_of_fmap. exists (id, rq). split; [done|].
      apply list_elem_of_filter. split; [done|]. by apply elem_of_map_to_list.
Qed.

(** X8. [DELETE /requirements/:id]: the owner's request removes exactly that
    requirement and answers 200; the same request again is answered 404 and
    changes nothing. A requirement of another user is not deleted (404), and
    a caller without a row in [users] is answered 404 "User not found". *)
Theorem delete_requirement_by_owner_only (req : Request unit) (st : Store) (id : nat) :
  params req !! "id" = Some id →
  unique_on u_auth_id (users st) →
  (∀ userId u rq,
     users st !! userId = Some u → u_auth_id u = user_authId req →
     requirements st !! id = Some rq →
     (r_owner_id rq = userId →
      let st' := with_requirements (delete id) st in
      delete_requirements req st
      = (st', json (BSuccess "Requirement deleted successfully")) ∧
      requirements st' !! id = None ∧
      (∀ j, j ≠ id → requirements st' !! j = requirements st !! j) ∧
      delete_requirements req st'
      = (st', fail 404 "Requirement not found or not owned by you")) ∧
     (r_owner_id rq ≠ userId →
      delete_requirements req st
      = (st, fail 404 "Requirement not found or not owned by you"))) ∧
  ((∀ i u, users st !! i = Some u → u_auth_id u ≠ user_authId req) →
   delete_requirements req st = (st, fail 404 "User not found")).
Proof.
  intros Hid Husers. split.
  - intros userId u rq Hu Hauth Hrq.
    assert (Hrows : ∀ st1, users st1 = users st →
              select_users_by_auth_id st1 (user_authId req) = [(userId, u)]).
    { intros st1 Hst1. unfold select_users_by_auth_id. rewrite Hst1, <-Hauth.
      by apply rows_where_unique. }
    split.
    + intros Howner st'. split_and!.
      * unfold delete_requirements. rewrite Hid, (Hrows st) by done. simpl.
        unfold rows_with_key. rewrite Hrq. simpl.
        by rewrite filter_cons_True.
      * simpl. apply lookup_delete_eq.
      * intros j Hj. simpl. by rewrite lookup_delete_ne.
      * unfold delete_requirements. rewrite Hid, (Hrows st') by done. simpl.
        unfold rows_with_key. by rewrite lookup_delete_eq.
    + intros Hother. unfold delete_requirements.
      rewrite Hid, (Hrows st) by done. simpl.
      unfold rows_with_key. rewrite Hrq. simpl.
      by rewrite filter_cons_False.
  - intros Hnone. unfold delete_requirements.
    by rewrite select_users_no_row.
Qed.



(** ** The enriched view of a user *)

Lemma update_where_unique {A B} `{EqDecision B} (column : A → B) (f : A → A)
    (m : gmap nat A) (i : nat) (x : A) :
  unique_on column m → m !! i = Some x → (∀ y, column (f y) = column y) →
  (λ y, if decide (column y = column x) then f y else y) <$> m = <[i := f x]> m ∧
  rows_where (λ y, column y = column x) (<[i := f x]> m) = [(i, f x)].
Proof.
  intros Huniq Hi Hf. split.
  - apply map_eq. intros j. rewrite lookup_fmap.
    destruct (decide (i = j)) as [<-|Hne].
    + rewrite lookup_insert_eq, Hi. simpl. by rewrite decide_True.
    + rewrite lookup_insert_ne by done. destruct (m !! j) as [y|] eqn:Hj; [|done].
      simpl. rewrite decide_False; [done|]. intros Hy. apply Hne.
      by apply (Huniq i j x y).
  - apply rows_where_singleton; [by rewrite lookup_insert_eq|by rewrite Hf|].
    intros j y Hj Hy. destruct (decide (i = j)) as [|Hne]; [done|].
    rewrite lookup_insert_ne in Hj by done. by apply (Huniq j i y x).
Qed.

Lemma elem_of_user_rows (st : Store) (id : nat) (u : User) (r : UserView) :
  r ∈ (p ← left_join (select_profiles_by_user_id st id);
       w ← left_join (select_worker_profiles_by_user_id st id);
       [users_view_row id u p w]) →
  ∃ p w, r = users_view_row id u p w.
Proof.
  intros Hr.
  apply list_elem_of_bind in Hr as (p & Hr & _).
  apply list_elem_of_bind in Hr as (w & Hr & _).
  apply list_elem_of_singleton in Hr. by exists p, w.
Qed.

(** With the unique columns of the schema, the view has one row for a user:
    the user joined with their profile and their worker profile, if any. *)
Lemma select_users_view_of_user (st : Store) (id : nat) (u : User) :
  schema_ok st → users st !! id = Some u →
  ∃ p w,
    select_users_view_by_auth_id st (u_auth_id u) = [users_view_row id u p w] ∧
    left_join (select_profiles_by_user_id st id) = [p] ∧
    left_join (select_worker_profiles_by_user_id st id) = [w].
Proof.
  intros [Husers Hprofiles _ _ Hworkers _ _ _] Hu.
  destruct (left_join_profiles st id Hprofiles) as (p & Hp & _).
  destruct (left_join_worker_profiles st id Hworkers) as (w & Hw & _).
  exists p, w. split; [|done].
  unfold select_users_view_by_auth_id, users_view.
  apply (filter_bind_singleton _ _ _ id u); [done| |done|].
  - simpl. rewrite Hp. simpl. by rewrite Hw.
  - intros j z r Hj Hz Hr Hauth.
    apply elem_of_user_rows in Hr as (? & ? & ->). simpl in Hauth.
    apply Hj. by apply (Husers j id z u).
Qed.

Lemma select_users_view_no_row (st : Store) (authId : nat) :
  (∀ i u, users st !! i = Some u → u_auth_id u ≠ authId) →
  select_users_view_by_auth_id st authId = [].
Proof.
  intros Hnone. unfold select_users_view_by_auth_id, users_view.
  apply filter_bind_nil. intros j z r Hz Hr Hauth.
  apply elem_of_user_rows in Hr as (? & ? & ->). by apply (Hnone j z).
Qed.

Lemma known_or_unknown (st : Store) (authId : nat) :
  (∀ i u, users st !! i = Some u → u_auth_id u ≠ authId) ∨
  ∃ id u, users st !! id = Some u ∧ u_auth_id u = authId.
Proof.
  destruct (select_users_by_auth_id st authId) as [|[id u] rows] eqn:Hrows.
  - left. intros i u Hi. by apply (proj1 (rows_where_nil _ _) Hrows i u).
  - right. exists id, u.
    apply (elem_of_rows_where (λ y, u_auth_id y = authId)).
    unfold select_users_by_auth_id in Hrows. rewrite Hrows. by left.
Qed.

Lemma post_auth_sync_known (now : Z) (st : Store) (id : nat) (u : User) :
  schema_ok st → users st !! id = Some u →
  ∃ user,
    select_users_view_by_auth_id st (u_auth_id u) = [user] ∧
    post_auth_sync now (u_auth_id u) st = (st, reply (PSync (Some user))) ∧
    uv_id user = id ∧ uv_role user = u_role u.
Proof.
  intros Hst Hu.
  destruct (select_users_view_of_user st id u Hst Hu) as (p & w & Hrows & _).
  exists (users_view_row id u p w). split_and!; [done| |done..].
  unfold post_auth_sync. by rewrite Hrows.
Qed.

Lemma post_auth_sync_unknown (now : Z) (authId : nat) (st : Store) :
  schema_ok st →
  (∀ i u, users st !! i = Some u → u_auth_id u ≠ authId) →
  let id := new_id (users st) in
  let new := {| u_auth_id := authId; u_role := "RESIDENT";
                u_created_at := now; u_updated_at := now |} in
  users st !! id = None ∧
  schema_ok (with_users (insert id new) st) ∧
  select_users_view_by_auth_id (with_users (insert id new) st) authId
  = [users_view_row id new None None] ∧
  post_auth_sync now authId st
  = (with_users (insert id new) st,
     reply (PSync (Some (users_view_row id new None None)))).
Proof.
  intros Hst Hnone id new.
  pose proof (new_id_fresh (users st)) as Hfresh. split; [done|].
  cut (schema_ok (with_users (insert id new) st) ∧
       (select_users_view_by_auth_id (with_users (insert id new) st) authId
        = [users_view_row id new None None] →
        post_auth_sync now authId st
        = (with_users (insert id new) st,
           reply (PSync (Some (users_view_row id new None None))))) ∧
       select_users_view_by_auth_id (with_users (insert id new) st) authId
       = [users_view_row id new None None]).
  { intros (? & Himp & ?). split_and!; [done|done|by apply Himp]. }
  assert (Hrows : select_users_by_auth_id st authId = [])
    by (by apply select_users_no_row).
  assert (Hst' : schema_ok (with_users (insert id new) st)).
  { pose proof (insert_user_schema_ok now authId "RESIDENT" st Hst) as H.
    unfold insert_user in H. rewrite decide_True in H by by_computation.
    by rewrite decide_True in H. }
  destruct (select_users_view_of_user _ id new Hst') as (p & w & Hview & Hp & Hw).
  { simpl. by rewrite lookup_insert_eq. }
  assert (p = None) as ->.
  { destruct (select_profiles_by_user_id _ id) as [|[j q] rows] eqn:Hsel;
      [by simplify_eq/=|].
    assert (Hq : profiles st !! j = Some q ∧ p_user_id q = id).
    { apply (elem_of_rows_where (λ y, p_user_id y = id)).
      unfold select_profiles_by_user_id in Hsel. simpl in Hsel.
      rewrite Hsel. by left. }
    destruct Hq as [Hq Hquser].
    destruct (profiles_user_id_fkey st Hst j q Hq) as [? Hsome].
    rewrite Hquser in Hsome. unfold id in Hsome. congruence. }
  assert (w = None) as ->.
  { destruct (select_worker_profiles_by_user_id _ id) as [|[j q] rows] eqn:Hsel;
      [by simplify_eq/=|].
    assert (Hq : worker_profiles st !! j = Some q ∧ wp_user_id q = id).
    { apply (elem_of_rows_where (λ y, wp_user_id y = id)).
      unfold select_worker_profiles_by_user_id in Hsel. simpl in Hsel.
      rewrite Hsel. by left. }
    destruct Hq as [Hq Hquser].
    destruct (worker_profiles_user_id_fkey st Hst j q Hq) as [? Hsome].
    rewrite Hquser in Hsome. unfold id in Hsome. congruence. }
  split_and!; [done| |done].
  intros _. unfold post_auth_sync. rewrite select_users_view_no_row by done. simpl.
  unfold insert_user. rewrite decide_True by by_computation.
  rewrite decide_True by done. simpl. fold id new.
  simpl in Hview. by rewrite Hview.
Qed.

(** X10. [POST /auth/sync] on a store that satisfies the schema: for an
    identity without a row in [users] it creates one row, with the role
    RESIDENT, and answers with that user (no profile yet); for a known
    identity it changes nothing and answers with the user, whose role is the
    one stored. Repeating the request changes nothing more and gets the same
    answer, and [GET /me] then returns the same user. *)
Theorem auth_sync_bootstraps_once (now : Z) (authId : nat) (st : Store) :
  schema_ok st →
  ((∀ i u, users st !! i = Some u → u_auth_id u ≠ authId) →
   ∃ id row,
     users st !! id = None ∧
     u_auth_id row = authId ∧ u_role row = "RESIDENT" ∧
     post_auth_sync now authId st
     = (with_users (insert id row) st,
        reply (PSync (Some (users_view_row id row None None))))) ∧
  (∀ id u,
     users st !! id = Some u → u_auth_id u = authId →
     ∃ user,
       post_auth_sync now authId st = (st, reply (PSync (Some user))) ∧
       uv_id user = id ∧ uv_role user = u_role u) ∧
  (∀ now',
     let first := post_auth_sync now authId st in
     post_auth_sync now' authId first.1 = first ∧
     ∃ user, payload first.2 = PSync (Some user) ∧
             get_me authId first.1 = reply (PUser (Some user))).
Proof.
  intros Hst. split_and!.
  - intros Hnone.
    destruct (post_auth_sync_unknown now authId st Hst Hnone)
      as (Hfresh & _ & _ & Hrun).
    eexists _, _. split_and!; [exact Hfresh|..|exact Hrun]; done.
  - intros id u Hu <-.
    destruct (post_auth_sync_known now st id u Hst Hu) as (user & _ & Hrun & Hrest).
    by exists user.
  - intros now' first.
    assert (Hfirst : ∃ id u user,
              users first.1 !! id = Some u ∧ u_auth_id u = authId ∧
              schema_ok first.1 ∧
              select_users_view_by_auth_id first.1 authId = [user] ∧
              first = (first.1, reply (PSync (Some user)))).
    { destruct (known_or_unknown st authId) as [Hnone|(id & u & Hu & Hauth)].
      - destruct (post_auth_sync_unknown now authId st Hst Hnone)
          as (Hfresh & Hst1 & Hrows & Hrun).
        unfold first. rewrite Hrun. simpl. eexists _, _, _.
        split_and!; [by rewrite lookup_insert_eq|done|done|exact Hrows|done].
      - subst authId.
        destruct (post_auth_sync_known now st id u Hst Hu)
          as (user & Hrows & Hrun & _).
        unfold first. rewrite Hrun. simpl. by exists id, u, user. }
    destruct Hfirst as (id & u & user & Hu & <- & Hst1 & Hrows & Hfirst).
    destruct (post_auth_sync_known now' first.1 id u Hst1 Hu)
      as (user' & Hrows' & Hagain & _).
    rewrite Hrows in Hrows'. injection Hrows' as <-.
    split.
    + rewrite Hagain. by symmetry.
    + exists user. split; [by rewrite Hfirst|].
      unfold get_me. by rewrite Hrows.
Qed.

(** ** Self-service verification *)

Lemma left_join_of_row {A B} `{EqDecision B} (column : A → B) (m : gmap nat A)
    (i : nat) (x : A) (v : B) :
  unique_on column m → m !! i = Some x → column x = v →
  left_join (rows_where (λ y, column y = v) m) = [Some (i, x)].
Proof. intros Huniq Hi <-. by rewrite (rows_where_unique column m i x). Qed.

Lemma left_join_of_none {A B} `{EqDecision B} (column : A → B) (m : gmap nat A) (v : B) :
  (∀ i x, m !! i = Some x → column x ≠ v) →
  left_join (rows_where (λ y, column y = v) m) = [None].
Proof.
  intros Hnone. replace (rows_where (λ y, column y = v) m) with (@nil (nat * A));
    [done|].
  symmetry. apply rows_where_nil. intros i x Hi. by apply Hnone in Hi.
Qed.

Lemma truthy_string_true (s : string) : s ≠ EmptyString → truthy_string s = true.
Proof. by destruct s. Qed.

Lemma truthy_number_true (n : Z) : n ≠ 0 → truthy_number n = true.
Proof. intros Hn. unfold truthy_number. by apply negb_true_iff, Z.eqb_neq. Qed.

Lemma update_profile_verified_of (st : Store) (pid : nat) (p : Profile) (b : bool) :
  unique_on p_user_id (profiles st) → profiles st !! pid = Some p →
  commit_single st (update_profile_verified (p_user_id p) b st)
  = (with_profiles (insert pid (set_verified b p)) st, inr (pid, set_verified b p)).
Proof.
  intros Huniq Hp. unfold update_profile_verified.
  destruct (update_where_unique p_user_id (set_verified b) (profiles st) pid p)
    as [Hmap Hrows]; [done..|].
  unfold select_profiles_by_user_id, with_profiles. simpl.
  rewrite Hmap, Hrows. done.
Qed.

(** X11. [POST /verify-me] on a store that satisfies the schema. A caller
    without a profile is answered 400 with [missing.basicProfile] set, and a
    WORKER with a profile but without a worker profile is answered 400 with
    only [missing.workerProfile] set; nothing changes then. A caller whose
    profile has a name and a phone, and who is not a WORKER or has a worker
    profile with a type and a charge other than 0, gets their profile
    verified: only the [verified] flag of that one profile changes. *)
Theorem verify_me_eligibility (authId userId : nat) (u : User) (st : Store) :
  schema_ok st →
  users st !! userId = Some u → u_auth_id u = authId →
  let incomplete basic worker :=
    (st, {| reply_status := 400;
            payload := PIncomplete
              "Please complete your profile before requesting verification"
              basic worker |}) in
  ((∀ i p, profiles st !! i = Some p → p_user_id p ≠ userId) →
   ∃ worker, post_verify_me authId st = incomplete true worker) ∧
  (∀ pid p,
     profiles st !! pid = Some p → p_user_id p = userId →
     p_name p ≠ EmptyString → p_phone p ≠ EmptyString →
     let verified :=
       (with_profiles (insert pid (set_verified true p)) st,
        reply (PVerified "Profile verified successfully!" pid (set_verified true p))) in
     (u_role u ≠ "WORKER" → post_verify_me authId st = verified) ∧
     (u_role u = "WORKER" →
      ((∀ i w, worker_profiles st !! i = Some w → wp_user_id w ≠ userId) →
       post_verify_me authId st = incomplete false true) ∧
      (∀ i w,
         worker_profiles st !! i = Some w → wp_user_id w = userId →
         wp_worker_type w ≠ EmptyString → wp_charges w ≠ 0 →
         post_verify_me authId st = verified))).
Proof.
  intros Hst Hu <- incomplete.
  pose proof Hst as [_ Hprofiles _ _ Hworkers _ _ _].
  destruct (select_users_view_of_user st userId u Hst Hu) as (p' & w' & Hrows & Hp' & Hw').
  split.
  - intros Hnone. unfold select_profiles_by_user_id in Hp'.
    rewrite (left_join_of_none p_user_id) in Hp' by done. injection Hp' as <-.
    eexists. unfold post_verify_me. rewrite Hrows. simpl. done.
  - intros pid p Hp Hpuser Hname Hphone verified.
    unfold select_profiles_by_user_id in Hp'.
    rewrite (left_join_of_row p_user_id _ pid p) in Hp' by done.
    injection Hp' as <-.
    assert (Hbasic : hasBasicProfile (users_view_row userId u (Some (pid, p)) w') = true).
    { unfold hasBasicProfile. simpl.
      by rewrite !truthy_string_true. }
    assert (Hverify : hasWorkerProfile (users_view_row userId u (Some (pid, p)) w') = true →
                      post_verify_me (u_auth_id u) st = verified).
    { intros Hworker. unfold post_verify_me. rewrite Hrows.
      cbn [maybeSingle data]. rewrite Hbasic, Hworker.
      cbn [negb orb uv_id users_view_row]. rewrite <-Hpuser.
      by rewrite (update_profile_verified_of st pid p true). }
    split.
    + intros Hrole. apply Hverify. unfold hasWorkerProfile. simpl.
      by rewrite bool_decide_eq_false_2.
    + intros Hrole. split.
      * intros Hnone. unfold select_worker_profiles_by_user_id in Hw'.
        rewrite (left_join_of_none wp_user_id) in Hw' by done. injection Hw' as <-.
        unfold post_verify_me. rewrite Hrows. simpl. rewrite Hbasic.
        unfold hasWorkerProfile. simpl. by rewrite bool_decide_eq_true_2.
      * intros i w Hw Hwuser Htype Hcharges.
        unfold select_worker_profiles_by_user_id in Hw'.
        rewrite (left_join_of_row wp_user_id _ i w) in Hw' by done.
        injection Hw' as <-. apply Hverify. unfold hasWorkerProfile. simpl.
        rewrite truthy_string_true, truthy_number_true by done.
        by rewrite orb_true_r.
Qed.

(** ** The worker profile of a caller *)






(** ** The phone number of a profile *)








(** ** Authentication *)

Lemma replace_first_eq (pattern replacement s : string) :
  replace_first pattern replacement s
  = if String.prefix pattern s
    then replacement +:+ string_drop (String.length pattern) s
    else match s with
         | EmptyString => EmptyString
         | String c s' => String c (replace_first pattern replacement s')
         end.
Proof. by destruct s. Qed.

Lemma prefix_app (p s : string) : String.prefix p (p +:+ s) = true.
Proof.
  induction p as [|c p IH]; simpl; [by destruct s|].
  by destruct (Ascii.ascii_dec c c).
Qed.

Lemma string_drop_app (p s : string) : string_drop (String.length p) (p +:+ s) = s.
Proof. induction p as [|c p IH]; simpl; [by destruct s|done]. Qed.

Lemma replace_first_prefix (pattern replacement s : string) :
  replace_first pattern replacement (pattern +:+ s) = replacement +:+ s.
Proof. by rewrite replace_first_eq, prefix_app, string_drop_app. Qed.

Lemma replace_first_absent (pattern replacement s : string) :
  includes pattern s = false → replace_first pattern replacement s = s.
Proof.
  induction s as [|c s IH]; simpl; intros [Hprefix Hrest]%orb_false_iff.
  - by rewrite Hprefix.
  - rewrite Hprefix. by rewrite IH.
Qed.

(** X14. A route behind [requireAuth]. Without an [Authorization] header
    or with an empty token the answer is 401 "No token provided"; with a
    token that the identity provider rejects, or on which it throws, the
    answer is 401; in all these cases the handler is not run and the store
    is unchanged. With a token that the provider accepts, the answer is
    the handler's, run for the user of the token. The prefix "Bearer " is
    optional: a header that does not contain it is taken as the token. *)
Theorem protected_route_authenticates {B} (getUser : string → AuthResult)
    (handler : Request B → Store → Store * Response)
    (token : string) (route_params : gmap string nat) (b : B) (st : Store) :
  let run authorization := protected getUser handler authorization route_params b st in
  run None = (st, fail 401 "No token provided") ∧
  (token = EmptyString →
   run (Some ("Bearer " +:+ token)) = (st, fail 401 "No token provided")) ∧
  (token ≠ EmptyString → getUser token = AuthInvalid →
   run (Some ("Bearer " +:+ token)) = (st, fail 401 "Invalid token")) ∧
  (token ≠ EmptyString → getUser token = AuthThrows →
   run (Some ("Bearer " +:+ token)) = (st, fail 401 "Auth failed")) ∧
  (∀ id mail,
     token ≠ EmptyString → getUser token = AuthUser id mail →
     run (Some ("Bearer " +:+ token))
     = handler {| user_authId := id; params := route_params; req_body := b |} st) ∧
  (includes "Bearer " token = false →
   run (Some token) = run (Some ("Bearer " +:+ token))).
Proof.
  intros run. unfold run, protected, requireAuth.
  cbn [fmap option_fmap option_map].
  rewrite (replace_first_prefix "Bearer " EmptyString token).
  change (EmptyString +:+ token) with token.
  split_and!.
  - done.
  - by intros ->.
  - intros Htoken Hauth. by rewrite truthy_string_true, Hauth.
  - intros Htoken Hauth. by rewrite truthy_string_true, Hauth.
  - intros id mail Htoken Hauth. by rewrite truthy_string_true, Hauth.
  - intros Habsent. by rewrite replace_first_absent.
Qed.

(** ** Translation and language detection *)

Section translation_endpoints.
Variable model : LanguageModel.
Variable toLowerCase : string → string.
Implicit Types s : Ext model.

(** X15. [translateText] between two different languages never rejects
    and sends exactly one prompt to the language model. When the call
    throws, the result is the text that was to be translated; when it
    answers, the result is the answer without the white space around it
    and without one quote at its start and one at its end. *)
Theorem translateText_falls_back (req : TranslationRequest) s :
  fromLanguage req ≠ toLanguage req →
  let prompt :=
    translation_prompt (default general (context_ req))
      (language_name (fromLanguage req)) (language_name (toLanguage req)) (text req) in
  let answer := generateContent model prompt (world model s) in
  ∃ result s',
    translateText model req s = (inr result, s') ∧
    world model s' = answer.2 ∧
    calls model s' = calls model s ++ [prompt] ∧
    (∀ error, answer.1 = inl error → result = text req) ∧
    (∀ response, answer.1 = inr response → result = strip_quotes (trim response)).
Proof.
  intros Hne prompt answer. unfold translateText, try_catch.
  rewrite decide_False by done.
  unfold mbind, Async_bind, model_generateContent. fold prompt. fold answer.
  destruct answer as [[error|response] w]; simpl.
  - eexists _, _. split_and!; [done..| |]; by intros ? [=].
  - eexists _, _. split_and!; [done..| |]; intros ? [=]; by subst.
Qed.

Lemma translateText_same (req : TranslationRequest) s :
  fromLanguage req = toLanguage req →
  translateText model req s = (inr (text req), s).
Proof. intros Hsame. unfold translateText, try_catch. by rewrite decide_True. Qed.

Lemma in_SUPPORTED_LANGUAGES_true (key : string) :
  in_SUPPORTED_LANGUAGES key = true ↔
  is_Some (SUPPORTED_LANGUAGES !! key) ∨ key ∈ Object_prototype_keys.
Proof. unfold in_SUPPORTED_LANGUAGES. by rewrite bool_decide_eq_true. Qed.

Lemma en_is_supported : is_Some (SUPPORTED_LANGUAGES !! "en").
Proof. by_computation. Qed.

(** X16. [detectLanguage] never rejects and sends exactly one prompt. Its
    result is "en" when the call to the language model throws, and when
    the answer, trimmed and in lower case, is not a key of
    [SUPPORTED_LANGUAGES]; otherwise it is that answer. The result is
    therefore a supported code or a key that [SUPPORTED_LANGUAGES]
    inherits from [Object.prototype]. *)
Theorem detectLanguage_result (t : string) s :
  let prompt := detection_prompt t in
  let answer := generateContent model prompt (world model s) in
  ∃ detected s',
    detectLanguage model toLowerCase t s = (inr detected, s') ∧
    world model s' = answer.2 ∧
    calls model s' = calls model s ++ [prompt] ∧
    (is_Some (SUPPORTED_LANGUAGES !! detected) ∨ detected ∈ Object_prototype_keys) ∧
    (∀ error, answer.1 = inl error → detected = "en") ∧
    (∀ response, answer.1 = inr response →
       let key := toLowerCase (trim response) in
       (in_SUPPORTED_LANGUAGES key = true → detected = key) ∧
       (in_SUPPORTED_LANGUAGES key = false → detected = "en")).
Proof.
  intros prompt answer. unfold detectLanguage, try_catch.
  unfold mbind, Async_bind, model_generateContent. fold prompt. fold answer.
  destruct answer as [[error|response] w]; simpl.
  - eexists _, _. split_and!; [done..|by left; apply en_is_supported| |];
      by intros ? [=].
  - destruct (in_SUPPORTED_LANGUAGES (toLowerCase (trim response))) eqn:Hkey; simpl.
    + eexists _, _. split_and!; [done..|by apply in_SUPPORTED_LANGUAGES_true| |].
      * by intros ? [=].
      * intros ? [= <-]. by rewrite Hkey.
    + eexists _, _. split_and!; [done..|by left; apply en_is_supported| |].
      * by intros ? [=].
      * intros ? [= <-]. by rewrite Hkey.
Qed.

Lemma detectLanguage_fulfils (t : string) s :
  ∃ detected s',
    detectLanguage model toLowerCase t s = (inr detected, s') ∧
    calls model s' = calls model s ++ [detection_prompt t] ∧
    (is_Some (SUPPORTED_LANGUAGES !! detected) ∨ detected ∈ Object_prototype_keys).
Proof.
  unfold detectLanguage, try_catch, mbind, Async_bind, model_generateContent.
  destruct (generateContent model _ _) as [[error|response] w]; simpl.
  - eexists _, _. split_and!; [done..|]. left. apply en_is_supported.
  - destruct (in_SUPPORTED_LANGUAGES (toLowerCase (trim response))) eqn:Hkey; simpl.
    + eexists _, _. split_and!; [done..|]. by apply in_SUPPORTED_LANGUAGES_true.
    + eexists _, _. split_and!; [done..|]. left. apply en_is_supported.
Qed.

Lemma nonempty_length (t : string) : (1 ≤ String.length t)%nat ↔ t ≠ EmptyString.
Proof. destruct t; simpl; split; (done || lia). Qed.

(** X17. [POST /detect-language] never answers 500. An empty text is
    answered 400 without a call to the language model; any other text is
    answered 200 with the detected code after one call. The response
    carries the name of the language as a string exactly when the code is
    a supported one. *)
Theorem post_detect_language_outcomes (t : string) s :
  ∃ r s',
    post_detect_language model toLowerCase t s = (inr r, s') ∧
    (t = EmptyString → r = invalid_request ∧ s' = s) ∧
    (t ≠ EmptyString →
     ∃ detected,
       r = reply (PDetected t detected (languageName_json detected)) ∧
       calls model s' = calls model s ++ [detection_prompt t] ∧
       (is_Some (SUPPORTED_LANGUAGES !! detected) ∨ detected ∈ Object_prototype_keys) ∧
       ∀ name, languageName_json detected = Some (JStr name) ↔
               SUPPORTED_LANGUAGES !! detected = Some name).
Proof.
  unfold post_detect_language, try_catch.
  destruct (decide (1 ≤ String.length t)%nat) as [Hlen|Hlen].
  - apply nonempty_length in Hlen.
    destruct (detectLanguage_fulfils t s) as (detected & s' & Hrun & Hcalls & Hkey).
    unfold mbind, Async_bind. rewrite Hrun. simpl.
    eexists _, _. split_and!; [done|done|]. intros _.
    exists detected. split_and!; [done..|].
    intros name. unfold languageName_json.
    destruct (SUPPORTED_LANGUAGES !! detected) as [own|]; [|case_decide];
      split; intros [=]; congruence.
  - simpl. eexists _, _. split_and!; [done|done|].
    intros Ht. by apply nonempty_length in Ht.
Qed.

Lemma unsupported_iff (from to : string) :
  negb (in_SUPPORTED_LANGUAGES from) || negb (in_SUPPORTED_LANGUAGES to) = true ↔
  in_SUPPORTED_LANGUAGES from = false ∨ in_SUPPORTED_LANGUAGES to = false.
Proof. by rewrite orb_true_iff, !negb_true_iff. Qed.

(** X18. [POST /translate] never answers 500. It answers 400, without a
    call to the language model, exactly when the body is invalid (an empty
    text or an unknown context) or one of the two language codes is not a
    key of [SUPPORTED_LANGUAGES]; otherwise it answers 200 and echoes the
    text, the codes and the context. When the two codes are equal, the
    translated text is the text itself and no call is made. *)
Theorem post_translate_outcomes (b : TranslateBody) s :
  let rejected :=
    ¬ TranslateBody_ok b ∨
    in_SUPPORTED_LANGUAGES (tb_fromLanguage b) = false ∨
    in_SUPPORTED_LANGUAGES (tb_toLanguage b) = false in
  ∃ r s',
    post_translate model b s = (inr r, s') ∧
    (rejected → reply_status r = 400 ∧ s' = s) ∧
    (¬ rejected →
     ∃ translatedText,
       r = reply (PTranslated (tb_text b) translatedText (tb_fromLanguage b)
                    (tb_toLanguage b) (tb_context b)) ∧
       (tb_fromLanguage b = tb_toLanguage b → translatedText = tb_text b ∧ s' = s)).
Proof.
  intros rejected. unfold post_translate, try_catch.
  destruct (decide (TranslateBody_ok b)) as [Hok|Hok]; cycle 1.
  { simpl. eexists _, _. split_and!; [done|done|]. intros Hnot.
    destruct Hnot. by left. }
  destruct (negb _ || negb _) eqn:Hcodes.
  { apply unsupported_iff in Hcodes. simpl. eexists _, _. split_and!; [done|done|].
    intros Hnot. destruct Hnot. by right. }
  assert (Haccepted : ¬ rejected).
  { intros [?|Hbad]; [done|]. apply unsupported_iff in Hbad. congruence. }
  unfold mbind, Async_bind.
  match goal with
  | |- context [translateText model ?req s] =>
      destruct (translateText_fulfils model req s) as (translatedText & s' & Hrun)
  end.
  rewrite Hrun. simpl. eexists _, _. split_and!; [done|done|]. intros _.
  exists translatedText. split; [done|]. intros Hsame.
  rewrite translateText_same in Hrun by done. by injection Hrun as <- <-.
Qed.

Lemma translateBatch_fulfils (texts : list string) (from to : string)
    (c : option TranslationContext) s :
  let translate := λ t, translateText model
                          {| text := t; fromLanguage := from;
                             toLanguage := to; context_ := c |} in
  ∃ results s',
    translateBatch model texts from to c s = (inr results, s') ∧
    Promise_all model (translate <$> texts) s = (inr results, s') ∧
    length results = length texts.
Proof.
  intros translate.
  assert (Hf : fulfils model translate) by (intros t s0; apply translateText_fulfils).
  destruct (run_batches_fulfils model translate (batches texts 0) [] s Hf)
    as (results & s' & Hall & Hrun).
  rewrite concat_batches, drop_0 in Hall.
  destruct (Promise_all_fulfils model translate texts s Hf) as (rs & s'' & Hall' & Hrs).
  rewrite Hall in Hall'. injection Hall' as <- <-.
  exists results, s'. split_and!; [|done|symmetry; by eapply Forall2_length].
  unfold translateBatch, translateBatch_with, try_catch.
  fold translate. by rewrite loop_run_batches, Hrun.
Qed.

Lemma Promise_all_same_language (texts : list string) (l : string)
    (c : option TranslationContext) s :
  Promise_all model
    ((λ t, translateText model {| text := t; fromLanguage := l;
                                  toLanguage := l; context_ := c |}) <$> texts) s
  = (inr texts, s).
Proof.
  revert s. induction texts as [|t texts IH]; intros s; [done|].
  rewrite fmap_cons. cbn [Promise_all].
  rewrite translateText_same by done. by rewrite IH.
Qed.

(** X19. [POST /translate-batch] never answers 500. It answers 400,
    without a call to the language model, exactly when the body is invalid
    (an empty text among the texts, or an unknown context) or one of the
    two language codes is not a key of [SUPPORTED_LANGUAGES]; otherwise it
    answers 200 with as many translated texts as there are texts. When the
    two codes are equal, the translated texts are the texts themselves and
    no call is made. *)
Theorem post_translate_batch_outcomes (b : TranslateBatchBody) s :
  let rejected :=
    ¬ TranslateBatchBody_ok b ∨
    in_SUPPORTED_LANGUAGES (bb_fromLanguage b) = false ∨
    in_SUPPORTED_LANGUAGES (bb_toLanguage b) = false in
  ∃ r s',
    post_translate_batch model b s = (inr r, s') ∧
    (rejected → reply_status r = 400 ∧ s' = s) ∧
    (¬ rejected →
     ∃ translatedTexts,
       r = reply (PTranslatedBatch (bb_texts b) translatedTexts (bb_fromLanguage b)
                    (bb_toLanguage b) (bb_context b)) ∧
       length translatedTexts = length (bb_texts b) ∧
       (bb_fromLanguage b = bb_toLanguage b →
        translatedTexts = bb_texts b ∧ s' = s)).
Proof.
  intros rejected. unfold post_translate_batch, try_catch.
  destruct (decide (TranslateBatchBody_ok b)) as [Hok|Hok]; cycle 1.
  { simpl. eexists _, _. split_and!; [done|done|]. intros Hnot.
    destruct Hnot. by left. }
  destruct (negb _ || negb _) eqn:Hcodes.
  { apply unsupported_iff in Hcodes. simpl. eexists _, _. split_and!; [done|done|].
    intros Hnot. destruct Hnot. by right. }
  assert (Haccepted : ¬ rejected).
  { intros [?|Hbad]; [done|]. apply unsupported_iff in Hbad. congruence. }
  unfold mbind, Async_bind.
  match goal with
  | |- context [translateBatch model _ _ _ ?c s] =>
      destruct (translateBatch_fulfils (bb_texts b) (bb_fromLanguage b)
                  (bb_toLanguage b) c s)
        as (translatedTexts & s' & Hrun & Hall & Hlen)
  end.
  rewrite Hrun. simpl. eexists _, _. split_and!; [done|done|]. intros _.
  exists translatedTexts. split_and!; [done..|]. intros Hsame.
  rewrite Hsame, Promise_all_same_language in Hall. by injection Hall as <- <-.
Qed.
End translation_endpoints.

(** ** Switching roles *)

Lemma post_select_role_known (now : Z) (req : Request RoleSelectionBody)
    (st : Store) (userId : nat) (u : User) :
  RoleSelectionBody_ok (req_body req) →
  unique_on u_auth_id (users st) →
  users st !! userId = Some u → u_auth_id u = user_authId req →
  post_select_role now req st
  = (with_users (insert userId (set_role (role (req_body req)) u)) st,
     json (BRoleSelected userId (role (req_body req)))).
Proof.
  intros Hok Husers Hu Hauth.
  destruct (update_where_unique u_auth_id (set_role (role (req_body req)))
              (users st) userId u) as [Hmap Hrows']; [done..|].
  unfold post_select_role. rewrite decide_True by done.
  rewrite <-Hauth, (select_users_of_caller st userId u) by done.
  cbn [maybeSingle]. unfold update_user_role.
  rewrite (select_users_of_caller st userId u) by done.
  rewrite decide_False by done. rewrite decide_True by done.
  unfold select_users_by_auth_id, with_users. cbn [users].
  by rewrite Hmap, Hrows'.
Qed.

(** X20. A WORKER who switches to RESIDENT with [POST /select-role] keeps
    their worker profile and their service posts in the store, but
    [GET /worker-profile] answers 404 and [POST /services] answers 403 for
    them from then on. Switching back to WORKER restores the store as it
    was before the first switch. *)
Theorem role_switch_keeps_worker_data (now : Z) (req : Request RoleSelectionBody)
    (st : Store) (userId : nat) (u : User) :
  unique_on u_auth_id (users st) →
  users st !! userId = Some u → u_auth_id u = user_authId req →
  u_role u = "WORKER" →
  role (req_body req) = "RESIDENT" →
  let st' := (post_select_role now req st).1 in
  (post_select_role now req st).2 = json (BRoleSelected userId "RESIDENT") ∧
  worker_profiles st' = worker_profiles st ∧
  service_posts st' = service_posts st ∧
  get_worker_profile (user_authId req) st' = fail 404 "Worker profile not found" ∧
  (∀ later post,
     user_authId post = user_authId req → ServicePostBody_ok (req_body post) →
     post_services later post st' = (st', fail 403 "Only workers can post services")) ∧
  (∀ later back,
     user_authId back = user_authId req → role (req_body back) = "WORKER" →
     (post_select_role later back st').1 = st).
Proof.
  intros Husers Hu Hauth Hrole Hresident st'.
  assert (Hok : RoleSelectionBody_ok (req_body req)).
  { unfold RoleSelectionBody_ok. rewrite Hresident. by_computation. }
  pose proof (post_select_role_known now req st userId u Hok Husers Hu Hauth) as Hrun.
  rewrite Hresident in Hrun. unfold st'. rewrite Hrun. cbn [fst snd].
  set (resident := set_role "RESIDENT" u).
  assert (Hu' : users (with_users (insert userId resident) st) !! userId = Some resident)
    by apply lookup_insert_eq.
  assert (Husers' : unique_on u_auth_id (users (with_users (insert userId resident) st))).
  { cbn [with_users users]. apply unique_on_insert; [done|].
    intros j y Hj Hne Hy. apply Hne. by apply (Husers j userId y u). }
  split_and!; [done..| | |].
  - unfold get_worker_profile. rewrite <-Hauth.
    change (u_auth_id u) with (u_auth_id resident).
    rewrite (select_users_of_caller _ userId resident Husers' Hu').
    cbn [maybeSingle data]. by rewrite decide_False.
  - intros later post Hcaller Hbody.
    apply (post_services_not_worker later post _ Hbody Husers' userId resident);
      [done|by rewrite Hcaller|done].
  - intros later back Hcaller Hworker.
    assert (Hback : RoleSelectionBody_ok (req_body back)).
    { unfold RoleSelectionBody_ok. rewrite Hworker. by_computation. }
    rewrite (post_select_role_known later back _ userId resident Hback Husers' Hu')
      by (by rewrite Hcaller).
    rewrite Hworker. cbn [fst]. unfold with_users. cbn [users].
    rewrite insert_insert_eq.
    replace (set_role "WORKER" resident) with u
      by (destruct u; simpl in Hrole; by subst).
    rewrite insert_id by done. by destruct st.
Qed.

(** * The further properties on the small store *)

Ltac schema_by_computation :=
  constructor; first [apply unique_on_NoDup; by_computation | by_computation].

Lemma sample_store_schema_ok : schema_ok sample_store.
Proof. schema_by_computation. Qed.

Lemma store_with_requirement_schema_ok : schema_ok store_with_requirement.
Proof. schema_by_computation. Qed.

Lemma nobody_is_300 (st := sample_store) :
  ∀ i u, users st !! i = Some u → u_auth_id u ≠ 300%nat.
Proof.
  apply (bool_decide_unpack
           (map_Forall (λ _ u, u_auth_id u ≠ 300%nat) (users sample_store))).
  vm_compute. exact I.
Qed.

Lemma toggle_requires_ownership_witness :
  patch_services_toggle (request_on 200 0 tt) sample_store
  = (sample_store, fail 404 "Service not found or not owned by you").
Proof.
  apply (toggle_requires_ownership (request_on 200 0 tt) sample_store 0);
    [reflexivity|].
  intros sp wp u Hsp Hwp Hu.
  vm_compute in Hsp. injection Hsp as <-.
  vm_compute in Hwp. injection Hwp as <-.
  vm_compute in Hu. injection Hu as <-.
  vm_compute. discriminate.
Defined.

Lemma toggle_twice_restores_witness :
  let once := patch_services_toggle (request_on 100 1 tt) sample_store in
  let twice := patch_services_toggle (request_on 100 1 tt) once.1 in
  status once.2 = 200 ∧ status twice.2 = 200 ∧
  (∃ sp', service_posts once.1 !! 1%nat = Some sp' ∧ sp_is_active sp' = true) ∧
  twice.1 = sample_store.
Proof.
  exact (toggle_twice_restores (request_on 100 1 tt) sample_store 1
           (asha_post "Tiffin" false 7) asha_worker_profile asha
           eq_refl eq_refl eq_refl eq_refl eq_refl sample_profiles_unique).
Defined.

Lemma toggle_changes_listing_witness :
  let st' := (patch_services_toggle (request_on 100 1 tt) sample_store).1 in
  (1%nat ∈ listed_services sample_store ↔ false = true) ∧
  (1%nat ∈ listed_services st' ↔ false = false) ∧
  ∀ j, j ≠ 1%nat → (j ∈ listed_services st' ↔ j ∈ listed_services sample_store).
Proof.
  exact (toggle_changes_listing (request_on 100 1 tt) sample_store 1
           (asha_post "Tiffin" false 7) asha_worker_profile asha
           eq_refl eq_refl eq_refl eq_refl eq_refl
           (service_posts_worker_id_fkey _ sample_store_schema_ok)
           (worker_profiles_user_id_fkey _ sample_store_schema_ok)
           sample_profiles_unique).
Defined.


Lemma my_services_are_the_callers_witness :
  ∃ services,
    get_my_services 100 sample_store = json (BServices services) ∧
    StronglySorted newer_first services ∧
    1%nat ∈ spv_id <$> services.
Proof.
  destruct (my_services_are_the_callers 100 sample_store)
    as (services & Hrun & Hsorted & _ & Hall).
  destruct (Hall sample_profiles_unique) as [_ Hlisted].
  exists services. split_and!; [exact Hrun|exact Hsorted|].
  exact (Hlisted 1%nat (asha_post "Tiffin" false 7) eq_refl eq_refl).
Defined.

Lemma get_requirements_open_newest_first_witness :
  ∃ listed,
    get_requirements store_with_requirement = reply (PRequirements listed) ∧
    0%nat ∈ rqv_id <$> listed.
Proof.
  destruct (get_requirements_open_newest_first store_with_requirement)
    as (listed & Hrun & _ & _ & Hall).
  destruct (Hall (requirements_owner_id_fkey _ store_with_requirement_schema_ok)
              sample_profiles_unique) as [_ Hlisted].
  exists listed. split; [exact Hrun|].
  exact (Hlisted 0%nat ravi_requirement eq_refl eq_refl).
Defined.

Lemma delete_requirement_by_owner_only_witness :
  delete_requirements (request_on 200 0 tt) store_with_requirement
  = (with_requirements (delete 0%nat) store_with_requirement,
     json (BSuccess "Requirement deleted successfully")) ∧
  delete_requirements (request_on 100 0 tt) store_with_requirement
  = (store_with_requirement, fail 404 "Requirement not found or not owned by you").
Proof.
  split.
  - destruct (delete_requirement_by_owner_only (request_on 200 0 tt)
                store_with_requirement 0 eq_refl sample_users_unique) as [Hknown _].
    destruct (Hknown 1%nat ravi ravi_requirement eq_refl eq_refl eq_refl) as [Howner _].
    exact (proj1 (Howner eq_refl)).
  - destruct (delete_requirement_by_owner_only (request_on 100 0 tt)
                store_with_requirement 0 eq_refl sample_users_unique) as [Hknown _].
    destruct (Hknown 0%nat asha ravi_requirement eq_refl eq_refl eq_refl) as [_ Hother].
    apply Hother. discriminate.
Defined.


Lemma auth_sync_bootstraps_once_witness :
  (∃ id row,
     users sample_store !! id = None ∧ u_role row = "RESIDENT" ∧
     post_auth_sync 40 300 sample_store
     = (with_users (insert id row) sample_store,
        reply (PSync (Some (users_view_row id row None None))))) ∧
  ∃ user,
    post_auth_sync 40 100 sample_store = (sample_store, reply (PSync (Some user))) ∧
    uv_role user = "WORKER".
Proof.
  split.
  - destruct (auth_sync_bootstraps_once 40 300 sample_store sample_store_schema_ok)
      as (Hunknown & _ & _).
    destruct (Hunknown nobody_is_300) as (id & row & Hfresh & _ & Hrole & Hrun).
    by exists id, row.
  - destruct (auth_sync_bootstraps_once 40 100 sample_store sample_store_schema_ok)
      as (_ & Hknown & _).
    destruct (Hknown 0%nat asha eq_refl eq_refl) as (user & Hrun & _ & Hrole).
    by exists user.
Defined.

Lemma verify_me_eligibility_witness :
  post_verify_me 100 sample_store
  = (with_profiles (insert 0%nat (set_verified true asha_profile)) sample_store,
     reply (PVerified "Profile verified successfully!" 0
              (set_verified true asha_profile))) ∧
  post_verify_me 100 store_before_worker_profile
  = (store_before_worker_profile,
     {| reply_status := 400;
        payload := PIncomplete
          "Please complete your profile before requesting verification"
          false true |}).
Proof.
  split.
  - destruct (verify_me_eligibility 100 0 asha sample_store
                sample_store_schema_ok eq_refl eq_refl) as [_ Hprofile].
    destruct (Hprofile 0%nat asha_profile eq_refl eq_refl) as [_ Hworker];
      [discriminate..|].
    destruct (Hworker eq_refl) as [_ Hcomplete].
    apply (Hcomplete 0%nat asha_worker_profile eq_refl eq_refl); discriminate.
  - assert (Hst : schema_ok store_before_worker_profile)
      by schema_by_computation.
    destruct (verify_me_eligibility 100 0 asha _ Hst eq_refl eq_refl) as [_ Hprofile].
    destruct (Hprofile 0%nat asha_profile eq_refl eq_refl) as [_ Hworker];
      [discriminate..|].
    destruct (Hworker eq_refl) as [Hmissing _].
    apply Hmissing. intros i w Hw. vm_compute in Hw. discriminate Hw.
Defined.



Lemma translateText_falls_back_witness :
  ∃ s',
    translateText quota_model
      {| text := "Daily meals"; fromLanguage := "en"; toLanguage := "hi";
         context_ := Some service |}
      {| world := 3%nat : model_state quota_model; calls := [] |}
    = (inr "Daily meals", s') ∧
    length (calls quota_model s') = 1%nat.
Proof.
  destruct (translateText_falls_back quota_model
              {| text := "Daily meals"; fromLanguage := "en"; toLanguage := "hi";
                 context_ := Some service |}
              {| world := 3%nat : model_state quota_model; calls := [] |})
    as (result & s' & Hrun & _ & Hcalls & Hfail & _); [discriminate|].
  rewrite (Hfail "429 Too Many Requests" eq_refl) in Hrun.
  exists s'. split; [exact Hrun|]. by rewrite Hcalls.
Defined.

Lemma role_switch_keeps_worker_data_witness :
  let st' := (post_select_role 70 (request 100 {| role := "RESIDENT" |}) sample_store).1 in
  worker_profiles st' = worker_profiles sample_store ∧
  service_posts st' = service_posts sample_store ∧
  get_worker_profile 100 st' = fail 404 "Worker profile not found" ∧
  post_services 71 (request 100 sample_service_body) st'
  = (st', fail 403 "Only workers can post services").
Proof.
  assert (Hok : ServicePostBody_ok sample_service_body) by by_computation.
  destruct (role_switch_keeps_worker_data 70 (request 100 {| role := "RESIDENT" |})
              sample_store 0 asha sample_users_unique eq_refl eq_refl eq_refl eq_refl)
    as (_ & Hworkers & Hposts & Hget & Hpost & _).
  split_and!; [exact Hworkers|exact Hposts|exact Hget|].
  exact (Hpost 71 (request 100 sample_service_body) eq_refl Hok).
Defined.

